(** * McMapAPI: the chatbot query pipeline

    A shallow embedding of [chatbot_query.py] (location vocabulary builder,
    query normaliser, category and location matchers) and of the chatbot
    route of [main.py] (router, outlet lookups, message formatter).

    Text is modelled as [string] over 8-bit characters.  The character
    classes and case maps below are those of Python's [str] on ASCII; code
    points from 128 up are treated as caseless symbols that are neither
    whitespace, digits nor word characters.  On ASCII text they are also
    those of SQLite's LOWER and LIKE.  Where a statement depends on the
    case of letters or on the classes of characters, it is stated for ASCII
    text ([ascii_text], [sqlite_text]). *)

From Stdlib Require Import Bool List ZArith NArith Lia Ascii String.
Import ListNotations.

Open Scope string_scope.
Open Scope bool_scope.

(** ** Python's string built-ins *)

Module PyStr.

Definition code (c : ascii) : N := N_of_ascii c.

Definition between (lo hi : N) (c : ascii) : bool :=
  (lo <=? code c)%N && (code c <=? hi)%N.

(** [str.isspace] on ASCII: TAB, LF, VT, FF, CR, FS, GS, RS, US, SPACE. *)
Definition isspace (c : ascii) : bool :=
  between 9 13 c || between 28 32 c.

Definition isupper (c : ascii) : bool := between 65 90 c.
Definition islower (c : ascii) : bool := between 97 122 c.
Definition isdigit (c : ascii) : bool := between 48 57 c.

Definition lower_char (c : ascii) : ascii :=
  if isupper c then ascii_of_N (code c + 32) else c.

Definition upper_char (c : ascii) : ascii :=
  if islower c then ascii_of_N (code c - 32) else c.

(** [s.lower()] *)
Fixpoint lower (s : string) : string :=
  match s with
  | EmptyString => EmptyString
  | String c s' => String (lower_char c) (lower s')
  end.

(** [s.title()]: a cased character is upper-cased when the character
    before it is uncased (or absent) and lower-cased otherwise. *)
Fixpoint title_from (previous_is_cased : bool) (s : string) : string :=
  match s with
  | EmptyString => EmptyString
  | String c s' =>
      if islower c then
        String (if previous_is_cased then c else upper_char c)
               (title_from true s')
      else if isupper c then
        String (if previous_is_cased then lower_char c else c)
               (title_from true s')
      else String c (title_from false s')
  end.

Definition title (s : string) : string := title_from false s.

Fixpoint lstrip (s : string) : string :=
  match s with
  | EmptyString => EmptyString
  | String c s' => if isspace c then lstrip s' else s
  end.

Fixpoint rstrip (s : string) : string :=
  match s with
  | EmptyString => EmptyString
  | String c s' =>
      match rstrip s' with
      | EmptyString => if isspace c then EmptyString else String c EmptyString
      | r => String c r
      end
  end.

(** [s.strip()] *)
Definition strip (s : string) : string := rstrip (lstrip s).

(** [s.split()]: the maximal runs of non-whitespace characters. *)
Fixpoint split (s : string) : list string :=
  match s with
  | EmptyString => []
  | String c s' =>
      if isspace c then split s'
      else
        match s' with
        | EmptyString => [String c EmptyString]
        | String d _ =>
            if isspace d then String c EmptyString :: split s'
            else
              match split s' with
              | w :: ws => String c w :: ws
              | [] => [String c EmptyString]
              end
        end
  end.

(** [s.split(sep)] for a one-character separator: never the empty list. *)
Fixpoint split_on (sep : ascii) (s : string) : list string :=
  match s with
  | EmptyString => [EmptyString]
  | String c s' =>
      if Ascii.eqb c sep then EmptyString :: split_on sep s'
      else
        match split_on sep s' with
        | w :: ws => String c w :: ws
        | [] => [String c EmptyString]
        end
  end.

(** [sep.join(items)] *)
Fixpoint join (sep : string) (items : list string) : string :=
  match items with
  | [] => EmptyString
  | [w] => w
  | w :: ws => w ++ sep ++ join sep ws
  end.

(** [x in items] for a list of strings. *)
Definition mem (x : string) (items : list string) : bool :=
  existsb (String.eqb x) items.

(** [bool(s)] *)
Definition truthy (s : string) : bool :=
  match s with EmptyString => false | _ => true end.

(** [needle in s]: substring test. *)
Fixpoint contains (needle s : string) : bool :=
  String.prefix needle s
  || match s with
     | EmptyString => false
     | String _ s' => contains needle s'
     end.

End PyStr.

(** ** The one regular expression of the program *)

Module Re.
Import PyStr.

(** [\w] on ASCII. *)
Definition isword (c : ascii) : bool :=
  isdigit c || isupper c || islower c || Ascii.eqb c "_".

(** Does [s] start with [n] digits followed by a word boundary? *)
Fixpoint digits_then_boundary (n : nat) (s : string) : bool :=
  match n, s with
  | O, EmptyString => true
  | O, String c _ => negb (isword c)
  | S n', String c s' => isdigit c && digits_then_boundary n' s'
  | S _, EmptyString => false
  end.

(** The scan of [re.sub(r"\b\d{5}\b", "", s)]: [skip] counts the
    characters of the current match still to drop, [previous_is_word]
    tells whether the character before the cursor is a word character. *)
Fixpoint sub_postal_from (skip : nat) (previous_is_word : bool)
    (s : string) : string :=
  match s with
  | EmptyString => EmptyString
  | String c s' =>
      match skip with
      | S k => sub_postal_from k (isword c) s'
      | O =>
          if negb previous_is_word && digits_then_boundary 5 s
          then sub_postal_from 4 (isword c) s'
          else String c (sub_postal_from 0 (isword c) s')
      end
  end.

Definition sub_postal (s : string) : string := sub_postal_from 0 false s.

(** Is there a match of [\b\d{5}\b] in [s], that is, is
    [re.search(r"\b\d{5}\b", s)] not [None]?  [previous_is_word] is as
    above. *)
Fixpoint search_postal_from (previous_is_word : bool) (s : string) : bool :=
  match s with
  | EmptyString => false
  | String c s' =>
      negb previous_is_word && digits_then_boundary 5 s
      || search_postal_from (isword c) s'
  end.

Definition search_postal (s : string) : bool := search_postal_from false s.

(** Does [s] start with [n] digits, whatever follows? *)
Fixpoint starts_with_digits (n : nat) (s : string) : bool :=
  match n, s with
  | O, _ => true
  | S n', String c s' => isdigit c && starts_with_digits n' s'
  | S _, EmptyString => false
  end.

(** Is there a match of [\d{5}] in [s]: five digits in a row anywhere? *)
Fixpoint search_five_digits (s : string) : bool :=
  starts_with_digits 5 s
  || match s with
     | EmptyString => false
     | String _ s' => search_five_digits s'
     end.

End Re.

(** ** The SQLite store *)

Module Sqlite.
Import PyStr.

(** A row of [outlets]; the remaining columns of the table (coordinates
    and the like) play no part on the chatbot path. *)
Record Outlet := { id : Z; name : string; address : string }.

(** A row of [categories]. *)
Record CategoryRow := { outlet_id : Z; category : string }.

Record Db := { outlets : list Outlet; categories : list CategoryRow }.

Definition Outlet_eq_dec (a b : Outlet) : {a = b} + {a <> b}.
Proof. decide equality; auto using Z.eq_dec, string_dec. Defined.

(** SQLite's [LIKE]: [%] matches any run of characters, [_] any single
    character, any other character itself up to ASCII case; there is no
    escape character unless one is declared. *)
Fixpoint like (pattern text : string) : bool :=
  match pattern with
  | EmptyString => match text with EmptyString => true | _ => false end
  | String p pattern' =>
      if Ascii.eqb p "%" then
        (fix any (t : string) : bool :=
           like pattern' t
           || match t with
              | EmptyString => false
              | String _ t' => any t'
              end) text
      else
        match text with
        | EmptyString => false
        | String c text' =>
            (Ascii.eqb p "_" || Ascii.eqb (lower_char p) (lower_char c))
            && like pattern' text'
        end
  end.

(** [SELECT DISTINCT ...] over rows already computed. *)
Definition distinct {A} (eq_dec : forall a b : A, {a = b} + {a <> b})
    (rows : list A) : list A :=
  nodup eq_dec rows.

End Sqlite.

(** ** The external resources: fuzzywuzzy and spaCy's stop words *)

(** [fuzz.partial_ratio], and the scorer [process.extractOne] uses when none
    is given ([fuzz.WRatio] after the default processor). *)
Class Fuzzy := {
  partial_ratio : string -> string -> Z;
  default_scorer : string -> string -> Z
}.

(** [spacy.lang.en.stop_words.STOP_WORDS] *)
Class StopWords := { STOP_WORDS : list string }.

Module Process.

(** [process.extractWithoutOrder] with the default cutoff 0. *)
Definition extractWithoutOrder `{Fuzzy} (query : string)
    (choices : list string) : list (string * Z) :=
  filter (fun r => (0 <=? snd r)%Z)
         (map (fun choice => (choice, default_scorer query choice)) choices).

(** [max(best_list, key=lambda i: i[1])]: the first of the maximal ones. *)
Definition max_by_score (first : string * Z) (rest : list (string * Z))
    : string * Z :=
  fold_left (fun best r => if (snd best <? snd r)%Z then r else best)
            rest first.

(** [process.extractOne]: [None] when nothing is yielded. *)
Definition extractOne `{Fuzzy} (query : string) (choices : list string)
    : option (string * Z) :=
  match extractWithoutOrder query choices with
  | [] => None
  | r :: rs => Some (max_by_score r rs)
  end.

End Process.

(** ** Results, exceptions and the trace of calls *)

Inductive exn := TypeError.

Inductive outcome (A : Type) :=
| Return (a : A)
| Raise (e : exn).
Arguments Return {A} a.
Arguments Raise {A} e.

(** The calls the chatbot route makes, in the order it makes them. *)
Inductive call :=
| ExtractCategory (query : string)
| ExtractLocation (query : string)
| GetOutletByCategoryAndLocation (categories location : string)
| GetOutletsByCategory (categories : list string)
| GetOutletsByLocation (location : string).

Definition is_lookup (c : call) : bool :=
  match c with
  | ExtractCategory _ | ExtractLocation _ => false
  | _ => true
  end.

(** A computation: the calls made so far and how it ended. *)
Definition M (A : Type) : Type := list call * outcome A.

Definition ret {A} (a : A) : M A := ([], Return a).

Definition bind {A B} (m : M A) (k : A -> M B) : M B :=
  match m with
  | (t, Return a) => let (t', r) := k a in ((t ++ t')%list, r)
  | (t, Raise e) => (t, Raise e)
  end.

Definition calling {A} (c : call) (r : outcome A) : M A := ([c], r).

Notation "x <- m ;; k" := (bind m (fun x => k))
  (at level 61, m at next level, right associativity).

(** ** chatbot_query.py *)

Module ChatbotQuery.
Import PyStr Sqlite.

Definition OUTLET_CATEGORIES : list (string * list string) :=
  [ ("24 Hours", ["24 hours"; "open all day"; "always open"]);
    ("Birthday Party", ["birthday party"; "kids party"; "celebration"]);
    ("Breakfast", ["breakfast"; "morning menu"; "breakfast hours"]);
    ("Cashless Facility", ["cashless"; "no cash"; "digital payment"]);
    ("Dessert Center", ["dessert"; "sweets"; "ice cream"]);
    ("Drive-Thru", ["drive-thru"; "drive through"; "car pickup"]);
    ("McCafe", ["mccafe"; "cafe"; "coffee"]);
    ("McDelivery", ["mcdelivery"; "home delivery"; "food delivery"]);
    ("Surau", ["surau"; "prayer room"; "mosque, masjid"]);
    ("WiFi", ["wifi"; "internet"; "free wifi"]);
    ("Digital Order Kiosk",
      ["digital kiosk"; "self-service kiosk"; "order kiosk"]);
    ("Electric Vehicle",
      ["electric vehicle"; "ev charging"; "charging station"]) ].

Definition STREET_PREFIXES : list string :=
  ["jalan"; "jl"; "st"; "street"; "persiaran"; "lorong"; "lebuhraya";
   "avenue"; "ave"].

(** [set.add] on a set kept as a duplicate-free list in insertion order
    (Python fixes no iteration order for a set; nothing below depends on
    the one chosen here). *)
Definition set_add (x : string) (s : list string) : list string :=
  if mem x s then s else (s ++ [x])%list.

(** The body of the inner loop of [get_cleaned_locations], up to the
    test on [cleaned_part]. *)
Definition cleaned_part (part : string) : string :=
  let words := split (lower part) in
  let filtered_words :=
    filter (fun word => negb (mem word STREET_PREFIXES)) words in
  strip (join " " filtered_words).

Definition add_part (locations : list string) (part : string)
    : list string :=
  if truthy (cleaned_part part)
  then set_add (title (cleaned_part part)) locations
  else locations.

Definition add_address (locations : list string) (address : string)
    : list string :=
  let address := Re.sub_postal address in
  let parts := map strip (split_on "," address) in
  fold_left add_part parts locations.

Definition get_cleaned_locations (db : Db) : list string :=
  let addresses := distinct string_dec (map address (outlets db)) in
  fold_left add_address addresses [].

Section Matchers.
Context `{Fuzzy} `{StopWords}.

(** [locations] is the module-level list computed once at import. *)
Variable locations : list string.

Definition extract_location (query : string) : outcome (option string) :=
  match Process.extractOne (title query) locations with
  | None => Raise TypeError
  | Some (match_, score) =>
      Return (if (80 <? score)%Z then Some match_ else None)
  end.

Definition add_keyword (query category : string)
    (categories : list string) (keyword : string) : list string :=
  if (80 <? partial_ratio query keyword)%Z
  then set_add category categories
  else categories.

Definition extract_category (query : string) : list string :=
  fold_left
    (fun categories entry =>
       fold_left (add_keyword query (fst entry)) (snd entry) categories)
    OUTLET_CATEGORIES [].

Definition preprocess_query (query : string) : string :=
  let query_cleaned :=
    join " " (filter (fun word => negb (mem word STOP_WORDS))
                     (split (lower query))) in
  strip query_cleaned.

End Matchers.

End ChatbotQuery.

(** ** main.py: the chatbot route *)

Module Main.
Import PyStr Sqlite ChatbotQuery.

(** The JSON-like dictionaries the routes return. *)
Inductive value :=
| VStr (s : string)
| VOutlets (rows : list Outlet).

Definition dict := list (string * value).

Fixpoint get (d : dict) (key : string) : option value :=
  match d with
  | [] => None
  | (k, v) :: d' => if String.eqb k key then Some v else get d' key
  end.

Definition LF : string := String (ascii_of_nat 10) EmptyString.

Section Routes.
Variable db : Db.

Definition get_outlet_by_category_and_location
    (categories_ location : string) : dict :=
  let category_list := split_on "," categories_ in
  let pattern := "%" ++ lower location ++ "%" in
  let params := map lower category_list in
  let rows :=
    flat_map
      (fun o =>
         flat_map
           (fun c =>
              if (id o =? outlet_id c)%Z
                 && like (lower pattern) (lower (address o))
                 && match category_list with
                    | [] => true
                    | _ => mem (lower (category c)) params
                    end
              then [o] else [])
           (categories db))
      (outlets db) in
  [("outlets", VOutlets rows)].

Definition get_outlets_by_location (location : string) : dict :=
  let pattern := "%" ++ lower location ++ "%" in
  let rows :=
    filter (fun o => like pattern (lower (address o))) (outlets db) in
  match rows with
  | [] => [("message", VStr "No outlets found in this location.")]
  | _ => [("outlets", VOutlets rows)]
  end.

Definition get_outlets_by_category (categories_ : list string) : dict :=
  match categories_ with
  | [] => [("outlets", VOutlets [])]
  | _ =>
      let params := map lower categories_ in
      let rows :=
        flat_map
          (fun o =>
             flat_map
               (fun c =>
                  if (id o =? outlet_id c)%Z
                     && mem (lower (category c)) params
                  then [o] else [])
               (categories db))
          (outlets db) in
      [("outlets", VOutlets (distinct Outlet_eq_dec rows))]
  end.

End Routes.

Definition header : string := "Here are the outlets I found:" ++ LF ++ LF.
Definition trailer : string :=
  "If you need more information, please let me know!".

Definition block (outlet : Outlet) : string :=
  strip (name outlet) ++ LF ++ strip (address outlet) ++ LF ++ LF.

(** [outlets.get("outlets", [])] *)
Definition get_outlets_or_empty (outlets_ : dict) : list Outlet :=
  match get outlets_ "outlets" with
  | Some (VOutlets rows) => rows
  | _ => []
  end.

Definition process_outlets_to_message (outlets_ : dict) : dict :=
  let outlet_list := get_outlets_or_empty outlets_ in
  match outlet_list with
  | [] => [("message", VStr "No outlets found for your request.")]
  | _ =>
      let message := header in
      let message :=
        fold_left (fun message outlet => message ++ block outlet)
                  outlet_list message in
      let message := message ++ trailer in
      [("message", VStr message)]
  end.

Definition help_message : string :=
  "Sorry, I can't find results for your request."
  ++ " If you think you made a mistake, please try again." ++ LF
  ++ "Please try something like:" ++ LF
  ++ "- 'Which outlets are 24 hours?'" ++ LF
  ++ "- 'Which outlets are in Bukit Bintang?'" ++ LF
  ++ "- 'Which 24-hour outlets are in Bukit Bintang?'".

(** [bool(location)] for [location] a string or [None]. *)
Definition truthy_location (location : option string) : bool :=
  match location with
  | Some l => truthy l
  | None => false
  end.

Definition truthy_set (s : list string) : bool :=
  match s with [] => false | _ => true end.

Section Chatbot.
Context `{Fuzzy} `{StopWords}.
Variable db : Db.
Variable locations : list string.

Definition chatbot_query (query : string) : M dict :=
  let query := lower query in
  let query := preprocess_query query in
  categories_ <-
    calling (ExtractCategory query) (Return (extract_category query)) ;;
  location <-
    calling (ExtractLocation query) (extract_location locations query) ;;
  if truthy_set categories_ && truthy_location location then
    let category_string := join "," categories_ in
    let loc := match location with Some l => l | None => "" end in
    outlets_ <-
      calling (GetOutletByCategoryAndLocation category_string loc)
        (Return (get_outlet_by_category_and_location db
                   category_string loc)) ;;
    ret (process_outlets_to_message outlets_)
  else if truthy_set categories_ then
    outlets_ <-
      calling (GetOutletsByCategory categories_)
        (Return (get_outlets_by_category db categories_)) ;;
    ret (process_outlets_to_message outlets_)
  else if truthy_location location then
    let loc := match location with Some l => l | None => "" end in
    outlets_ <-
      calling (GetOutletsByLocation loc)
        (Return (get_outlets_by_location db loc)) ;;
    ret (process_outlets_to_message outlets_)
  else
    ret [("message", VStr help_message)].

End Chatbot.

End Main.

(** ** A small deployment to run the pipeline on *)

Module Sample.
Import PyStr Sqlite ChatbotQuery Main.

(** Stand-in scorers, only used to evaluate the program on concrete
    inputs.  Either scores 0 when one of the strings is empty.  A
    keyword scores 100 against a query when one occurs in the other and
    0 otherwise; a choice scores 100 when it equals the query up to case,
    90 when one occurs in the other up to case, and 0 otherwise. *)
Definition occurs (a b : string) : bool :=
  truthy a && truthy b && (contains a b || contains b a).

Definition fuzzy : Fuzzy := {|
  partial_ratio query keyword :=
    if occurs keyword query then 100%Z else 0%Z;
  default_scorer query choice :=
    if truthy query && String.eqb (lower choice) (lower query) then 100%Z
    else if occurs (lower choice) (lower query) then 90%Z
    else 0%Z
|}.

(** Five of spaCy's stop words. *)
Definition stop_words : StopWords := {|
  STOP_WORDS := ["which"; "are"; "in"; "the"; "is"]
|}.

Definition db : Db := {|
  outlets :=
    [ {| id := 1; name := " McDonald's Bukit Bintang ";
         address := "120 Jalan Bukit Bintang, 55100 Kuala Lumpur" |};
      {| id := 2; name := "McDonald's The Curve";
         address := "Lot G1, The Curve, Jalan PJU 7/3, 47800 Petaling Jaya " |};
      {| id := 3; name := "McDonald's Ampang";
         address := "Jalan Ampang, 50450 Kuala Lumpur" |} ];
  categories :=
    [ {| outlet_id := 1; category := "24 Hours" |};
      {| outlet_id := 1; category := "WiFi" |};
      {| outlet_id := 2; category := "WiFi" |};
      {| outlet_id := 3; category := "24 Hours" |} ]
|}.

Definition locations : list string := get_cleaned_locations db.

(** The chatbot route of this deployment. *)
Definition run (query : string) : M dict :=
  @chatbot_query fuzzy stop_words db locations query.

End Sample.

Import PyStr Sqlite ChatbotQuery Main.

(** ** main.py: the other routes over the store *)

Module Routes.
Import PyStr Sqlite.

(** The values of the dictionaries these routes return. *)
Inductive json :=
| JNull
| JInt (n : Z)
| JRow (row : Outlet)
| JRows (rows : list Outlet)
| JStrings (items : list string).

Definition response := list (string * json).

(** What these routes raise. *)
Inductive error :=
| OverflowError
| OperationalError.

Inductive result (A : Type) :=
| Ok (a : A)
| Error (e : error).
Arguments Ok {A} a.
Arguments Error {A} e.

(** An integer that fits SQLite's INTEGER; binding any other raises
    [OverflowError]. *)
Definition int64 (i : Z) : bool :=
  (- 2 ^ 63 <=? i)%Z && (i <? 2 ^ 63)%Z.

(** SQLite's default limit on the number of bytes of a LIKE pattern; a
    longer pattern makes the evaluation of LIKE fail. *)
Definition like_pattern_limit : N := 50000.

Definition like_pattern_too_long (pattern : string) : bool :=
  (like_pattern_limit <? N.of_nat (String.length pattern))%N.

(** [cursor.fetchone()] *)
Definition fetchone {A} (rows : list A) : option A :=
  match rows with
  | [] => None
  | row :: _ => Some row
  end.

Definition get_outlets (db : Db) : response :=
  [("outlets", JRows (outlets db))].

(** LIKE is evaluated once per row of the table, so that a pattern over
    the limit fails only when there is a row. *)
Definition search_outlets (db : Db) (query : string)
    : result response :=
  let pattern := "%" ++ lower query ++ "%" in
  match outlets db with
  | [] => Ok [("outlets", JRows [])]
  | _ =>
      if like_pattern_too_long (lower pattern) then Error OperationalError
      else
        let rows :=
          filter (fun o => like (lower pattern) (lower (name o)))
                 (outlets db) in
        Ok [("outlets", JRows rows)]
  end.

Definition get_outlet (db : Db) (outlet_id_ : Z) : result response :=
  if int64 outlet_id_ then
    let outlet :=
      fetchone (filter (fun o => (id o =? outlet_id_)%Z) (outlets db)) in
    Ok [("outlet", match outlet with Some row => JRow row | None => JNull end)]
  else Error OverflowError.

Definition get_outlet_services (db : Db) (outlet_id_ : Z)
    : result response :=
  if int64 outlet_id_ then
    let services :=
      map category
          (filter (fun c => (outlet_id c =? outlet_id_)%Z) (categories db)) in
    Ok [("outlet_id", JInt outlet_id_); ("services", JStrings services)]
  else Error OverflowError.

End Routes.

(** ** Vocabulary of the statements *)

(** Text of ASCII characters only: on it the character classes and case
    maps of [PyStr] and [Re] are those of Python. *)
Fixpoint ascii_text (s : string) : bool :=
  match s with
  | EmptyString => true
  | String c s' => (code c <? 128)%N && ascii_text s'
  end.

(** ASCII text without NUL: on it [lower] is also SQLite's LOWER and
    [like] SQLite's LIKE. *)
Fixpoint sqlite_text (s : string) : bool :=
  match s with
  | EmptyString => true
  | String c s' => (0 <? code c)%N && (code c <? 128)%N && sqlite_text s'
  end.

(** The string is short enough for the pattern the lookups make of it, the
    string between two [%], to stay within SQLite's limit of 50000 bytes on
    a LIKE pattern. *)
Definition fits_like (s : string) : bool :=
  (N.of_nat (String.length s) + 2 <=? 50000)%N.

(** Every comma-separated component of the address is empty once the postal
    code and the street-type words are gone. *)
Definition cleans_to_nothing (address : string) : bool :=
  forallb (fun part => negb (truthy (cleaned_part part)))
          (map strip (split_on "," (Re.sub_postal address))).

(** No whitespace in the string. *)
Fixpoint nospace (s : string) : bool :=
  match s with
  | EmptyString => true
  | String c s' => negb (isspace c) && nospace s'
  end.

(** A word: not empty and free of whitespace. *)
Definition token (w : string) : bool := truthy w && nospace w.

(** No [%] and no [_] in the string. *)
Fixpoint no_wildcard (s : string) : bool :=
  match s with
  | EmptyString => true
  | String c s' =>
      negb (Ascii.eqb c "%") && negb (Ascii.eqb c "_") && no_wildcard s'
  end.

(** The outlet has a row in [categories] for this category, up to case. *)
Definition carries (db : Db) (o : Outlet) (cat : string) : bool :=
  existsb (fun c => (id o =? outlet_id c)%Z
                    && String.eqb (lower (category c)) (lower cat))
          (categories db).

(** No comma in the string. *)
Fixpoint nocomma (s : string) : bool :=
  match s with
  | EmptyString => true
  | String c s' => negb (Ascii.eqb c ",") && nocomma s'
  end.

(** [c.islower() or c.isupper()] *)
Definition cased (c : ascii) : bool := islower c || isupper c.

(** What [title] makes of one character, given whether the one before it
    is cased. *)
Definition title_char (previous_is_cased : bool) (c : ascii) : ascii :=
  if islower c then (if previous_is_cased then c else upper_char c)
  else if isupper c then (if previous_is_cased then lower_char c else c)
  else c.

(** The class of the character before the first word of [s], when [b] is
    that of the character before [s]. *)
Definition first_state (b : bool) (s : string) : bool :=
  match s with
  | EmptyString => b
  | String c _ => b && negb (isspace c)
  end.

(** Two strings of the same length with digits and word characters at the
    same places. *)
Inductive same_class : string -> string -> Prop :=
| same_class_nil : same_class "" ""
| same_class_cons c d s t :
    isdigit c = isdigit d -> Re.isword c = Re.isword d -> same_class s t ->
    same_class (String c s) (String d t).

(** The states of the scan: [skip] characters of a match still to drop
    ([q], the class of the last character written, is then that of the
    boundary before the match); or none, and the last character read is
    the last one written, or the scan has just passed a match. *)
Definition scan_state (skip : nat) (p q : bool) (s : string) : Prop :=
  match skip with
  | O => p = q \/ (p = true /\ q = false /\ Re.digits_then_boundary 0 s = true)
  | S _ => q = false /\ Re.digits_then_boundary skip s = true
  end.

(** The loop of [extract_category] over any table and from any set. *)
Definition scan_table `{Fuzzy} (query : string)
    (table : list (string * list string))
    (categories : list string) : list string :=
  fold_left
    (fun categories entry =>
       fold_left (add_keyword query (fst entry)) (snd entry) categories)
    table categories.

(** The rows of [outlets JOIN categories] that pass [cond], each as its
    outlet. *)
Definition joined (cond : Outlet -> CategoryRow -> bool)
    (cats : list CategoryRow) (outs : list Outlet) : list Outlet :=
  flat_map
    (fun o => flat_map (fun c => if cond o c then [o] else []) cats) outs.

(** * Properties *)

(** ** Characters *)

Ltac ascii_cases c :=
  destruct c as [[] [] [] [] [] [] [] []]; vm_compute;
  try reflexivity; try discriminate; try congruence.

Lemma isspace_lower_char c : isspace (lower_char c) = isspace c.
Proof. ascii_cases c. Qed.

Lemma lower_char_idem c : lower_char (lower_char c) = lower_char c.
Proof. ascii_cases c. Qed.

Lemma isspace_not_word c : isspace c = true -> Re.isword c = false.
Proof. ascii_cases c. Qed.

Lemma isdigit_word c : isdigit c = true -> Re.isword c = true.
Proof. ascii_cases c. Qed.

(** ** Strings *)

Lemma append_assoc_s (a b c : string) : (a ++ b) ++ c = a ++ (b ++ c).
Proof. induction a; simpl; congruence. Qed.

Lemma append_empty_r (a : string) : a ++ "" = a.
Proof. induction a; simpl; congruence. Qed.

Lemma mem_In x l : mem x l = true <-> In x l.
Proof.
  unfold mem. rewrite existsb_exists. split.
  - intros [y [Hy E]]. apply String.eqb_eq in E. now subst.
  - intros Hx. exists x. split; [assumption | apply String.eqb_refl].
Qed.

Lemma mem_false x l : mem x l = false <-> ~ In x l.
Proof.
  rewrite <- mem_In. destruct (mem x l); split; congruence.
Qed.

(** ** Sets as duplicate-free lists *)

Lemma set_add_In x y s : In y (set_add x s) <-> y = x \/ In y s.
Proof.
  unfold set_add. destruct (mem x s) eqn:E.
  - apply mem_In in E. split; [auto | intros [-> | ?]; assumption].
  - rewrite in_app_iff. simpl. intuition.
Qed.

Lemma set_add_NoDup x s : NoDup s -> NoDup (set_add x s).
Proof.
  intros Hs. unfold set_add. destruct (mem x s) eqn:E; [assumption |].
  apply mem_false in E.
  apply NoDup_rev in Hs. rewrite <- (rev_involutive (s ++ [x])%list).
  apply NoDup_rev. rewrite rev_app_distr. simpl. constructor.
  - now rewrite <- in_rev.
  - assumption.
Qed.

(** ** The formatter *)

Lemma fold_left_blocks rows : forall init,
  fold_left (fun message outlet => message ++ block outlet) rows init
  = init ++ fold_right append "" (map block rows).
Proof.
  induction rows as [|o rows IH]; intros init; simpl.
  - now rewrite append_empty_r.
  - rewrite IH. apply append_assoc_s.
Qed.

(** C7. The formatter answers a fixed sentence for an empty outlet list
    (also when the lookup's answer has no list at all); otherwise the header,
    one block name, newline, address, two newlines per outlet, both stripped,
    in the order of the list, and then the trailer. *)
Theorem process_outlets_to_message_spec (outlets_ : dict) :
  let outlet_list := get_outlets_or_empty outlets_ in
  (outlet_list = [] ->
     process_outlets_to_message outlets_
     = [("message", VStr "No outlets found for your request.")])
  /\ (outlet_list <> [] ->
        process_outlets_to_message outlets_
        = [("message",
            VStr (("Here are the outlets I found:" ++ LF ++ LF)
                  ++ fold_right append ""
                       (map (fun o => strip (name o) ++ LF
                                      ++ strip (address o) ++ LF ++ LF)
                            outlet_list)
                  ++ "If you need more information, please let me know!"))]).
Proof.
  intros outlet_list. unfold process_outlets_to_message.
  fold outlet_list. split.
  - intros ->. reflexivity.
  - intros Hne. destruct outlet_list as [|o rows] eqn:E; [congruence |].
    rewrite fold_left_blocks, append_assoc_s. reflexivity.
Qed.

Lemma process_outlets_to_message_spec_witness :
  process_outlets_to_message [("outlets", VOutlets [])]
  = [("message", VStr "No outlets found for your request.")]
  /\ process_outlets_to_message
       [("message", VStr "No outlets found in this location.")]
     = [("message", VStr "No outlets found for your request.")]
  /\ process_outlets_to_message
       [("outlets",
         VOutlets [ {| id := 7; name := " B "; address := "2 Jalan X " |};
                    {| id := 3; name := "A"; address := " 1 Jalan Y" |} ])]
     = [("message",
         VStr ("Here are the outlets I found:" ++ LF ++ LF
               ++ "B" ++ LF ++ "2 Jalan X" ++ LF ++ LF
               ++ "A" ++ LF ++ "1 Jalan Y" ++ LF ++ LF
               ++ "If you need more information, please let me know!"))].
Proof.
  split; [| split].
  - apply (proj1 (process_outlets_to_message_spec
                    [("outlets", VOutlets [])])). reflexivity.
  - apply (proj1 (process_outlets_to_message_spec
                    [("message", VStr "No outlets found in this location.")])).
    reflexivity.
  - rewrite (proj2 (process_outlets_to_message_spec _)).
    + reflexivity.
    + discriminate.
Defined.

(** ** The category matcher *)

Section CategoryMatcher.
Context `{Fuzzy}.
Variable query : string.

Lemma add_keyword_In category categories keyword c :
  In c (add_keyword query category categories keyword)
  <-> In c categories
      \/ (c = category /\ (80 < partial_ratio query keyword)%Z).
Proof.
  unfold add_keyword.
  destruct (80 <? partial_ratio query keyword)%Z eqn:E.
  - apply Z.ltb_lt in E. rewrite set_add_In. intuition.
  - apply Z.ltb_ge in E. intuition. lia.
Qed.

Lemma fold_keywords_In category keywords : forall categories c,
  In c (fold_left (add_keyword query category) keywords categories)
  <-> In c categories
      \/ (c = category
          /\ exists keyword,
               In keyword keywords
               /\ (80 < partial_ratio query keyword)%Z).
Proof.
  induction keywords as [|k ks IH]; intros categories c; simpl.
  - split; [auto | intros [? | [_ [k [[] _]]]]; assumption].
  - rewrite IH, add_keyword_In. split.
    + intros [[? | [-> ?]] | [-> [k' [? ?]]]]; eauto 7.
    + intros [? | [-> [k' [[<- | ?] ?]]]]; eauto 7.
Qed.

Lemma fold_keywords_NoDup category keywords : forall categories,
  NoDup categories ->
  NoDup (fold_left (add_keyword query category) keywords categories).
Proof.
  induction keywords as [|k ks IH]; intros categories Hc; simpl; auto.
  apply IH. unfold add_keyword.
  destruct (80 <? partial_ratio query k)%Z; auto using set_add_NoDup.
Qed.

Lemma scan_table_In table : forall categories c,
  In c (scan_table query table categories)
  <-> In c categories
      \/ exists keywords keyword,
           In (c, keywords) table /\ In keyword keywords
           /\ (80 < partial_ratio query keyword)%Z.
Proof.
  induction table as [|[cat kws] table IH]; intros categories c.
  - simpl. split; [auto | intros [? | [? [? [[] _]]]]; assumption].
  - unfold scan_table in *. simpl. rewrite IH, fold_keywords_In. split.
    + intros [[? | [-> [k [? ?]]]] | [ks [k [? [? ?]]]]]; eauto 9.
    + intros [? | [ks [k [[E | ?] [? ?]]]]]; eauto 9.
      inversion E; subst. eauto 9.
Qed.

Lemma scan_table_NoDup table : forall categories,
  NoDup categories -> NoDup (scan_table query table categories).
Proof.
  induction table as [|[cat kws] table IH]; intros categories Hc; auto.
  apply IH. now apply fold_keywords_NoDup.
Qed.

(** C4. The category matcher returns a duplicate-free collection holding
    exactly the labels one of whose keywords scores above 80 against the
    query under the partial ratio; it is empty when no keyword does,
    and holds both 24 Hours and WiFi when a keyword of each does. *)
Theorem extract_category_spec :
  NoDup (extract_category query)
  /\ (forall c,
        In c (extract_category query)
        <-> exists keywords keyword,
              In (c, keywords) OUTLET_CATEGORIES /\ In keyword keywords
              /\ (80 < partial_ratio query keyword)%Z)
  /\ ((forall c keywords keyword,
         In (c, keywords) OUTLET_CATEGORIES -> In keyword keywords ->
         (partial_ratio query keyword <= 80)%Z) ->
      extract_category query = [])
  /\ ((80 < partial_ratio query "24 hours")%Z ->
      (80 < partial_ratio query "wifi")%Z ->
      In "24 Hours" (extract_category query)
      /\ In "WiFi" (extract_category query)).
Proof.
  assert (Hin : forall c,
    In c (extract_category query)
    <-> exists keywords keyword,
          In (c, keywords) OUTLET_CATEGORIES /\ In keyword keywords
          /\ (80 < partial_ratio query keyword)%Z).
  { intros c. change (extract_category query)
      with (scan_table query OUTLET_CATEGORIES []).
    rewrite scan_table_In. simpl In at 1. intuition. }
  split; [| split; [exact Hin | split]].
  - apply (scan_table_NoDup OUTLET_CATEGORIES []). constructor.
  - intros Hlow. destruct (extract_category query) as [|c l] eqn:E; auto.
    destruct (proj1 (Hin c)) as [ks [k [H1 [H2 H3]]]];
      [now left |].
    specialize (Hlow _ _ _ H1 H2). lia.
  - intros H24 Hwifi. split; apply Hin.
    + exists ["24 hours"; "open all day"; "always open"], "24 hours".
      simpl. auto.
    + exists ["wifi"; "internet"; "free wifi"], "wifi".
      simpl. intuition.
Qed.

End CategoryMatcher.

Lemma extract_category_spec_witness :
  @extract_category Sample.fuzzy "wifi and 24 hours" = ["24 Hours"; "WiFi"]
  /\ NoDup (@extract_category Sample.fuzzy "wifi and 24 hours")
  /\ In "24 Hours" (@extract_category Sample.fuzzy "wifi and 24 hours")
  /\ In "WiFi" (@extract_category Sample.fuzzy "wifi and 24 hours")
  /\ @extract_category Sample.fuzzy "xyzzy" = [].
Proof.
  pose proof (@extract_category_spec Sample.fuzzy "wifi and 24 hours")
    as [Hnd [_ [_ Hboth]]].
  pose proof (@extract_category_spec Sample.fuzzy "xyzzy")
    as [_ [_ [Hnone _]]].
  split; [reflexivity | split; [exact Hnd |]].
  destruct Hboth as [H24 Hwifi]; [vm_compute; reflexivity .. |].
  split; [exact H24 | split; [exact Hwifi |]].
  apply Hnone. intros c ks k Hc Hk.
  simpl in Hc.
  repeat (destruct Hc as [Hc | Hc];
          [inversion Hc; subst; simpl in Hk;
           repeat (destruct Hk as [<- | Hk]; [vm_compute; discriminate |]);
           destruct Hk |]).
  destruct Hc.
Defined.

(** ** The location matcher *)

Section LocationMatcher.
Context `{Fuzzy}.

Lemma max_by_score_In rest : forall first,
  In (Process.max_by_score first rest) (first :: rest).
Proof.
  unfold Process.max_by_score.
  induction rest as [|r rest IH]; intros first; simpl; [auto |].
  destruct (snd first <? snd r)%Z.
  - destruct (IH r) as [<- | ?]; auto.
  - destruct (IH first) as [<- | ?]; auto.
Qed.

Lemma max_by_score_upper rest : forall first r,
  In r (first :: rest) ->
  (snd r <= snd (Process.max_by_score first rest))%Z.
Proof.
  unfold Process.max_by_score.
  induction rest as [|x rest IH]; intros first r Hr; simpl.
  - destruct Hr as [<- | []]. lia.
  - assert (Hmono : forall a, (snd a <=
        snd (fold_left (fun best r0 =>
               if (snd best <? snd r0)%Z then r0 else best) rest a))%Z).
    { intros a. apply IH. now left. }
    destruct (snd first <? snd x)%Z eqn:E.
    + apply Z.ltb_lt in E. destruct Hr as [<- | [<- | Hr]].
      * specialize (Hmono x). lia.
      * apply Hmono.
      * apply IH. now right.
    + apply Z.ltb_ge in E. destruct Hr as [<- | [<- | Hr]].
      * apply Hmono.
      * specialize (Hmono first). lia.
      * apply IH. now right.
Qed.

Lemma extractWithoutOrder_all query choices :
  (forall c, In c choices -> (0 <= default_scorer query c)%Z) ->
  Process.extractWithoutOrder query choices
  = map (fun c => (c, default_scorer query c)) choices.
Proof.
  unfold Process.extractWithoutOrder.
  induction choices as [|c cs IH]; intros Hpos; simpl; [reflexivity |].
  rewrite IH by (intros; apply Hpos; now right).
  assert (0 <= default_scorer query c)%Z as E by (apply Hpos; now left).
  apply Z.leb_le in E. now rewrite E.
Qed.

(** On a vocabulary that is not empty and with scores that are never
    negative, the matcher returns the first entry of best score when that
    score exceeds 80, and [None] otherwise. *)
Lemma extract_location_nonempty locations query :
  locations <> [] ->
  (forall c, In c locations -> (0 <= default_scorer (title query) c)%Z) ->
  exists best,
    In best locations
    /\ (forall c, In c locations ->
          (default_scorer (title query) c
           <= default_scorer (title query) best)%Z)
    /\ extract_location locations query
       = Return (if (80 <? default_scorer (title query) best)%Z
                 then Some best else None).
Proof.
  intros Hne Hpos. unfold extract_location, Process.extractOne.
  rewrite (extractWithoutOrder_all _ _ Hpos).
  destruct locations as [|l ls]; [congruence |]. simpl map.
  set (f := fun c => (c, default_scorer (title query) c)).
  pose proof (max_by_score_In (map f ls) (f l)) as Hin.
  pose proof (max_by_score_upper (map f ls) (f l)) as Hup.
  change (f l :: map f ls) with (map f (l :: ls)) in Hin.
  apply in_map_iff in Hin. destruct Hin as [best [Hbest Hin]].
  exists best. split; [exact Hin | split].
  - intros c Hc.
    assert (Hfc : In (f c) (f l :: map f ls))
      by (change (f l :: map f ls) with (map f (l :: ls)); now apply in_map).
    specialize (Hup (f c) Hfc). rewrite <- Hbest in Hup. exact Hup.
  - subst f. cbv beta in Hbest. rewrite <- Hbest. reflexivity.
Qed.

End LocationMatcher.

(** C3, at the empty vocabulary: the matcher does not answer [None], the
    unpacking of [extractOne]'s result fails. *)
Theorem extract_location_no_vocabulary_fails :
  @extract_location Sample.fuzzy [] "bukit bintang" = Raise TypeError.
Proof. reflexivity. Qed.

(** ** The vocabulary builder on addresses that leave nothing *)

Lemma add_address_nothing address :
  cleans_to_nothing address = true -> add_address [] address = [].
Proof.
  unfold cleans_to_nothing, add_address.
  induction (map strip (split_on "," (Re.sub_postal address)))
    as [|part parts IH]; simpl; [reflexivity |].
  intros Hall. apply andb_prop in Hall. destruct Hall as [Hp Hall].
  unfold add_part at 2. apply negb_true_iff in Hp. rewrite Hp. auto.
Qed.

Lemma get_cleaned_locations_nothing db :
  (forall a, In a (map address (outlets db)) -> cleans_to_nothing a = true) ->
  get_cleaned_locations db = [].
Proof.
  intros Hall. unfold get_cleaned_locations, distinct.
  assert (Hall' : forall a,
            In a (nodup string_dec (map address (outlets db))) ->
            cleans_to_nothing a = true).
  { intros a Ha. apply Hall. now apply nodup_In in Ha. }
  induction (nodup string_dec (map address (outlets db))) as [|a l IH];
    simpl; [reflexivity |].
  rewrite add_address_nothing by (apply Hall'; now left).
  apply IH. intros; apply Hall'; now right.
Qed.

(** C9. When the store has no address, or only addresses that clean to
    nothing, the vocabulary is empty, and then [extract_location] raises on
    every query, and so does the chatbot route, after its two matcher
    calls and before any lookup. *)
Theorem empty_vocabulary_raises `{Fuzzy} `{StopWords} (db0 : Db) :
  (forall a, In a (map address (outlets db0)) -> cleans_to_nothing a = true) ->
  get_cleaned_locations db0 = []
  /\ (forall query,
        extract_location (get_cleaned_locations db0) query = Raise TypeError)
  /\ (forall db query,
        chatbot_query db (get_cleaned_locations db0) query
        = ([ExtractCategory (preprocess_query (lower query));
            ExtractLocation (preprocess_query (lower query))],
           Raise TypeError)).
Proof.
  intros Hall. rewrite (get_cleaned_locations_nothing db0 Hall).
  repeat split.
Qed.

Lemma empty_vocabulary_raises_witness :
  let db0 := {| outlets := [ {| id := 1; name := "A";
                                address := "Jalan, 50000" |} ];
                categories := [] |} in
  get_cleaned_locations db0 = []
  /\ @extract_location Sample.fuzzy (get_cleaned_locations db0) "ampang"
     = Raise TypeError
  /\ snd (@chatbot_query Sample.fuzzy Sample.stop_words Sample.db
            (get_cleaned_locations db0) "wifi in ampang")
     = Raise TypeError.
Proof.
  intros db0.
  destruct (@empty_vocabulary_raises Sample.fuzzy Sample.stop_words db0)
    as [Hv [Hl Hq]].
  - intros a [<- | []]. vm_compute. reflexivity.
  - split; [exact Hv | split; [apply Hl |]].
    rewrite Hq. reflexivity.
Defined.

(** ** The router *)

(** C8. The empty query normalises to the empty string; and whenever
    the category matcher finds nothing and the location matcher answers
    [None] on the normalised query, the route makes its two matcher calls,
    no lookup, and returns the help message as a normal result. *)
Theorem no_match_gives_help `{Fuzzy} `{StopWords} (db : Db)
    (locations : list string) :
  preprocess_query (lower "") = ""
  /\ forall query,
       extract_category (preprocess_query (lower query)) = [] ->
       extract_location locations (preprocess_query (lower query))
       = Return None ->
       chatbot_query db locations query
       = ([ExtractCategory (preprocess_query (lower query));
           ExtractLocation (preprocess_query (lower query))],
          Return [("message", VStr help_message)])
       /\ existsb is_lookup (fst (chatbot_query db locations query)) = false.
Proof.
  split; [reflexivity |].
  intros query Hc Hl.
  assert (E : chatbot_query db locations query
              = ([ExtractCategory (preprocess_query (lower query));
                  ExtractLocation (preprocess_query (lower query))],
                 Return [("message", VStr help_message)])).
  { unfold chatbot_query, calling, bind, ret. rewrite Hc, Hl. reflexivity. }
  split; [exact E | now rewrite E].
Qed.

Lemma no_match_gives_help_witness :
  Sample.run ""
  = ([ExtractCategory ""; ExtractLocation ""],
     Return [("message", VStr help_message)])
  /\ Sample.run "asdkjasd"
     = ([ExtractCategory "asdkjasd"; ExtractLocation "asdkjasd"],
        Return [("message", VStr help_message)]).
Proof.
  pose proof (@no_match_gives_help Sample.fuzzy Sample.stop_words
                Sample.db Sample.locations) as [_ Hhelp].
  split.
  - apply (Hhelp ""); vm_compute; reflexivity.
  - apply (Hhelp "asdkjasd"); vm_compute; reflexivity.
Defined.

(** ** Words: what [split], [join] and [strip] do to each other *)

Lemma split_head_nonspace c s :
  isspace c = false -> split (String c s) <> [].
Proof.
  intros Hc. simpl. rewrite Hc. destruct s as [|d s]; [discriminate |].
  destruct (isspace d); [discriminate |].
  destruct (split (String d s)); discriminate.
Qed.

Lemma split_tokens s : Forall (fun w => token w = true) (split s).
Proof.
  induction s as [|c s IH]; [constructor |].
  change (split (String c s)) with
    (if isspace c then split s
     else match s with
          | EmptyString => [String c EmptyString]
          | String d _ =>
              if isspace d then String c EmptyString :: split s
              else match split s with
                   | w :: ws => String c w :: ws
                   | [] => [String c EmptyString]
                   end
          end).
  destruct (isspace c) eqn:Hc; [exact IH |].
  assert (Hone : token (String c "") = true)
    by (unfold token; simpl; now rewrite Hc).
  destruct s as [|d s]; [now constructor |].
  destruct (isspace d); [now constructor |].
  destruct (split (String d s)) as [|w ws]; [now constructor |].
  inversion IH as [|? ? Hw Hws]; subst. constructor; [| exact Hws].
  unfold token in *. simpl. rewrite Hc. simpl.
  now apply andb_prop in Hw.
Qed.

Lemma split_token w : token w = true -> split w = [w].
Proof.
  unfold token. induction w as [|c w IH]; [discriminate |].
  simpl. intros Hw. apply andb_prop in Hw. destruct Hw as [Hc Hw].
  apply negb_true_iff in Hc. rewrite Hc.
  destruct w as [|d w]; [reflexivity |].
  assert (Hd : isspace d = false).
  { simpl in Hw. apply andb_prop in Hw. now apply negb_true_iff. }
  rewrite Hd. rewrite IH; [reflexivity |].
  simpl. exact Hw.
Qed.

Lemma split_token_app w c r :
  token w = true -> isspace c = true ->
  split (w ++ String c r) = w :: split r.
Proof.
  unfold token. induction w as [|x w IH]; [discriminate |].
  intros Hw Hc. simpl in Hw. apply andb_prop in Hw. destruct Hw as [Hx Hw].
  apply negb_true_iff in Hx.
  destruct w as [|y w].
  - simpl. now rewrite Hx, Hc.
  - assert (Hy : isspace y = false).
    { simpl in Hw. apply andb_prop in Hw. now apply negb_true_iff. }
    change (split ((String x (String y w)) ++ String c r)) with
      (if isspace x then split (String y w ++ String c r)
       else if isspace y
            then String x EmptyString :: split (String y w ++ String c r)
            else match split (String y w ++ String c r) with
                 | w0 :: ws => String x w0 :: ws
                 | [] => [String x EmptyString]
                 end).
    rewrite Hx, Hy, IH; [reflexivity | exact Hw | exact Hc].
Qed.

Lemma split_join ws :
  Forall (fun w => token w = true) ws -> split (join " " ws) = ws.
Proof.
  induction 1 as [|w ws Hw Hws IH]; [reflexivity |].
  destruct ws as [|w' ws].
  - simpl. now apply split_token.
  - change (join " " (w :: w' :: ws))
      with (w ++ String " " (join " " (w' :: ws))).
    rewrite split_token_app; [now rewrite IH | exact Hw | reflexivity].
Qed.

Lemma split_lstrip s : split (lstrip s) = split s.
Proof.
  induction s as [|c s IH]; [reflexivity |].
  simpl lstrip. destruct (isspace c) eqn:Hc; [| reflexivity].
  rewrite IH. simpl. now rewrite Hc.
Qed.

Lemma rstrip_head d s d' r : rstrip (String d s) = String d' r -> d = d'.
Proof.
  simpl. destruct (rstrip s); [destruct (isspace d) |]; congruence.
Qed.

Lemma split_nil_head c s : split (String c s) = [] -> isspace c = true.
Proof.
  intros E. destruct (isspace c) eqn:Hc; [reflexivity |].
  now apply split_head_nonspace with (s := s) in Hc.
Qed.

Lemma split_rstrip s : split (rstrip s) = split s.
Proof.
  induction s as [|c s IH]; [reflexivity |].
  simpl rstrip. destruct (rstrip s) as [|d' r] eqn:Er.
  - simpl in IH. destruct (isspace c) eqn:Hc.
    + simpl. now rewrite Hc.
    + simpl. rewrite Hc. destruct s as [|d s]; [reflexivity |].
      symmetry in IH. rewrite (split_nil_head _ _ IH). now rewrite <- IH.
  - destruct s as [|d s]; [discriminate |].
    pose proof (rstrip_head _ _ _ _ Er) as <-.
    change (split (String c (String d r))) with
      (if isspace c then split (String d r)
       else if isspace d then String c EmptyString :: split (String d r)
            else match split (String d r) with
                 | w :: ws => String c w :: ws
                 | [] => [String c EmptyString]
                 end).
    change (split (String c (String d s))) with
      (if isspace c then split (String d s)
       else if isspace d then String c EmptyString :: split (String d s)
            else match split (String d s) with
                 | w :: ws => String c w :: ws
                 | [] => [String c EmptyString]
                 end).
    now rewrite IH.
Qed.

Lemma split_strip s : split (strip s) = split s.
Proof. unfold strip. now rewrite split_rstrip, split_lstrip. Qed.

Lemma Forall_filter {A} (P : A -> Prop) f (l : list A) :
  Forall P l -> Forall P (filter f l).
Proof.
  induction 1; simpl; [constructor |].
  destruct (f _); [constructor |]; assumption.
Qed.

(** The words of a cleaned string are the words that were kept. *)
Lemma split_strip_join_filter f s :
  split (strip (join " " (filter f (split s)))) = filter f (split s).
Proof.
  rewrite split_strip. apply split_join, Forall_filter, split_tokens.
Qed.

(** ** The normaliser and what the matchers receive *)

(** C1, on the code. Both matchers are called with one and the same string,
    the lower-cased query with its stop words removed, so no word of the
    string [extract_location] receives is a stop word; the location
    matcher title-cases that string before scoring. *)
Theorem matchers_receive_normalized_query `{Fuzzy} `{StopWords} (db : Db)
    (locations : list string) (query : string) :
  let normalized := preprocess_query (lower query) in
  (exists rest,
     fst (chatbot_query db locations query)
     = ExtractCategory normalized :: ExtractLocation normalized :: rest)
  /\ (forall word, In word (split normalized) -> mem word STOP_WORDS = false)
  /\ extract_location locations normalized
     = match Process.extractOne (title normalized) locations with
       | None => Raise TypeError
       | Some (match_, score) =>
           Return (if (80 <? score)%Z then Some match_ else None)
       end.
Proof.
  intros normalized. split; [| split; [| reflexivity]].
  - unfold chatbot_query, calling, bind, ret. fold normalized.
    destruct (extract_location locations normalized) as [location | e];
      [| now eexists].
    destruct (truthy_set (extract_category normalized));
      destruct (truthy_location location); simpl; now eexists.
  - intros word Hw. unfold normalized, preprocess_query in Hw.
    rewrite split_strip_join_filter in Hw.
    apply filter_In in Hw. destruct Hw as [_ Hw].
    now apply negb_true_iff in Hw.
Qed.

Lemma matchers_receive_normalized_query_witness :
  (exists rest,
     fst (Sample.run "Which outlets are in Bukit Bintang?")
     = ExtractCategory "outlets bukit bintang?"
       :: ExtractLocation "outlets bukit bintang?" :: rest)
  /\ (forall word,
        In word (split "outlets bukit bintang?") ->
        mem word (@STOP_WORDS Sample.stop_words) = false).
Proof.
  pose proof (@matchers_receive_normalized_query Sample.fuzzy
                Sample.stop_words Sample.db Sample.locations
                "Which outlets are in Bukit Bintang?") as W.
  cbv zeta in W. destruct W as [[rest Hrest] [Hwords _]].
  split.
  - exists rest. unfold Sample.run. etransitivity; [exact Hrest |].
    vm_compute. reflexivity.
  - intros word Hword. apply Hwords.
    replace (preprocess_query (lower "Which outlets are in Bukit Bintang?"))
      with "outlets bukit bintang?" by (vm_compute; reflexivity).
    exact Hword.
Defined.

(** C1 as stated fails: on the query The Curve the string handed to
    [extract_location] is curve; it is not the raw query, and the stop word
    the, a word of the raw query, is gone from it. *)
Lemma location_matcher_loses_stop_words :
  fst (Sample.run "The Curve")
  = [ExtractCategory "curve"; ExtractLocation "curve";
     GetOutletsByLocation "The Curve"]
  /\ mem "the" (@STOP_WORDS Sample.stop_words) = true
  /\ In "the" (split (lower "The Curve"))
  /\ contains "the" (lower "curve") = false
  /\ title "curve" <> title "The Curve".
Proof.
  repeat split; try reflexivity.
  - simpl. auto.
  - discriminate.
Qed.

(** ** SQLite's LIKE against substring search *)

Lemma lower_append a b : lower (a ++ b) = lower a ++ lower b.
Proof. induction a; simpl; congruence. Qed.

Lemma lower_idem s : lower (lower s) = lower s.
Proof. induction s; simpl; [| rewrite lower_char_idem]; congruence. Qed.

Lemma like_percent q t :
  like (String "%" q) t
  = like q t
    || match t with
       | EmptyString => false
       | String _ t' => like (String "%" q) t'
       end.
Proof. destruct t; reflexivity. Qed.

Lemma like_percent_all t : like "%" t = true.
Proof.
  induction t as [|c t IH]; [reflexivity |].
  rewrite like_percent, IH. apply orb_true_r.
Qed.

Lemma like_char p q c t :
  Ascii.eqb p "%" = false ->
  like (String p q) (String c t)
  = (Ascii.eqb p "_" || Ascii.eqb (lower_char p) (lower_char c)) && like q t.
Proof. intros E. simpl. now rewrite E. Qed.

Lemma like_char_empty p q :
  Ascii.eqb p "%" = false -> like (String p q) "" = false.
Proof. intros E. simpl. now rewrite E. Qed.

Lemma lower_char_wildcard c :
  Ascii.eqb (lower_char c) "%" = Ascii.eqb c "%"
  /\ Ascii.eqb (lower_char c) "_" = Ascii.eqb c "_".
Proof. split; ascii_cases c. Qed.

(** A pattern free of wildcards followed by [%] is a prefix test. *)
Lemma like_prefix p : forall t,
  no_wildcard p = true ->
  like (lower p ++ "%") (lower t) = prefix (lower p) (lower t).
Proof.
  induction p as [|x p IH]; intros t Hp.
  - simpl lower. simpl append. rewrite like_percent_all.
    now destruct (lower t).
  - simpl in Hp. apply andb_prop in Hp. destruct Hp as [Hx Hp].
    apply andb_prop in Hx. destruct Hx as [Hx1 Hx2].
    apply negb_true_iff in Hx1, Hx2.
    destruct (lower_char_wildcard x) as [E1 E2].
    simpl lower. simpl append. destruct t as [|c t].
    + simpl lower. rewrite like_char_empty by congruence. reflexivity.
    + simpl lower. rewrite like_char by congruence.
      rewrite E2, Hx2, !lower_char_idem, IH by assumption. simpl.
      destruct (ascii_dec (lower_char x) (lower_char c)) as [E | E].
      * rewrite E, Ascii.eqb_refl. reflexivity.
      * apply Ascii.eqb_neq in E. now rewrite E.
Qed.

(** With no wildcard in the location, the lookup's pattern is a
    case-insensitive substring test. *)
Lemma like_contains loc addr :
  no_wildcard loc = true ->
  like (lower ("%" ++ lower loc ++ "%")) (lower addr)
  = contains (lower loc) (lower addr).
Proof.
  intros Hp.
  change (lower ("%" ++ lower loc ++ "%"))
    with (String "%" (lower (lower loc ++ "%"))).
  rewrite lower_append, lower_idem. change (lower "%") with "%".
  induction addr as [|c addr IH].
  - pose proof (like_prefix loc "" Hp) as E. simpl lower in E |- *.
    rewrite like_percent, E. simpl. now rewrite orb_false_r.
  - simpl lower. rewrite like_percent.
    change (String (lower_char c) (lower addr)) with (lower (String c addr)).
    rewrite (like_prefix loc (String c addr) Hp). simpl lower.
    rewrite IH. reflexivity.
Qed.

(** Whatever the location holds, an address that contains it matches. *)
Lemma prefix_like p : forall t,
  prefix p t = true -> like (p ++ "%") t = true.
Proof.
  induction p as [|x p IH]; intros t Hp.
  - apply like_percent_all.
  - destruct t as [|c t]; [discriminate |].
    simpl in Hp. destruct (ascii_dec x c) as [<- | ]; [| discriminate].
    specialize (IH t Hp). simpl append.
    destruct (Ascii.eqb x "%") eqn:E.
    + apply Ascii.eqb_eq in E. subst x.
      rewrite like_percent. rewrite (like_percent _ t), IH.
      simpl. apply orb_true_r.
    + rewrite like_char by assumption.
      rewrite IH, Ascii.eqb_refl. now rewrite orb_true_r.
Qed.

Lemma contains_like loc addr :
  contains (lower loc) (lower addr) = true ->
  like (lower ("%" ++ lower loc ++ "%")) (lower addr) = true.
Proof.
  change (lower ("%" ++ lower loc ++ "%"))
    with (String "%" (lower (lower loc ++ "%"))).
  rewrite lower_append, lower_idem. change (lower "%") with "%".
  induction (lower addr) as [|c t IH]; intros Hc.
  - simpl in Hc. rewrite orb_false_r in Hc.
    rewrite like_percent. now rewrite prefix_like.
  - rewrite like_percent.
    change (contains (lower loc) (String c t))
      with (prefix (lower loc) (String c t) || contains (lower loc) t) in Hc.
    apply orb_prop in Hc. destruct Hc as [Hc | Hc].
    + now rewrite prefix_like.
    + rewrite IH by assumption. apply orb_true_r.
Qed.

(** ** The lookups *)

Lemma split_on_nocomma w : nocomma w = true -> split_on "," w = [w].
Proof.
  induction w as [|c w IH]; [reflexivity |].
  simpl. intros Hw. apply andb_prop in Hw. destruct Hw as [Hc Hw].
  apply negb_true_iff in Hc. now rewrite Hc, IH.
Qed.

Lemma split_on_app w r :
  nocomma w = true -> split_on "," (w ++ String "," r) = w :: split_on "," r.
Proof.
  induction w as [|c w IH]; [reflexivity |].
  simpl. intros Hw. apply andb_prop in Hw. destruct Hw as [Hc Hw].
  apply negb_true_iff in Hc. now rewrite Hc, IH.
Qed.

Lemma split_on_join cats :
  cats <> [] -> Forall (fun c => nocomma c = true) cats ->
  split_on "," (join "," cats) = cats.
Proof.
  intros Hne Hall. induction Hall as [|c cats Hc Hcats IH]; [congruence |].
  destruct cats as [|c' cats].
  - simpl. now apply split_on_nocomma.
  - change (join "," (c :: c' :: cats))
      with (c ++ String "," (join "," (c' :: cats))).
    rewrite split_on_app by assumption. now rewrite IH.
Qed.

Lemma extract_category_labels `{Fuzzy} query c :
  In c (extract_category query) -> In c (map fst OUTLET_CATEGORIES).
Proof.
  change (extract_category query)
    with (scan_table query OUTLET_CATEGORIES []).
  rewrite scan_table_In. intros [[] | [ks [k [Hin _]]]].
  change c with (fst (c, ks)). now apply in_map.
Qed.

Lemma extract_category_nocomma `{Fuzzy} query :
  Forall (fun c => nocomma c = true) (extract_category query).
Proof.
  apply Forall_forall. intros c Hc. apply extract_category_labels in Hc.
  simpl in Hc. repeat (destruct Hc as [<- | Hc]; [reflexivity |]).
  destruct Hc.
Qed.

Lemma extract_location_In `{Fuzzy} locations query loc :
  extract_location locations query = Return (Some loc) -> In loc locations.
Proof.
  unfold extract_location, Process.extractOne.
  destruct (Process.extractWithoutOrder (title query) locations)
    as [|r rs] eqn:E; [discriminate |].
  pose proof (max_by_score_In rs r) as Hin.
  destruct (Process.max_by_score r rs) as [m sc].
  destruct (80 <? sc)%Z; [| discriminate].
  intros Heq. inversion Heq; subst.
  rewrite <- E in Hin. unfold Process.extractWithoutOrder in Hin.
  apply filter_In in Hin. destruct Hin as [Hin _].
  apply in_map_iff in Hin. destruct Hin as [x [Hx Hin]].
  now inversion Hx; subst.
Qed.

Section Join.
Variable cond : Outlet -> CategoryRow -> bool.
Variable cats : list CategoryRow.

Lemma joined_In outs o :
  In o (joined cond cats outs)
  <-> In o outs /\ exists c, In c cats /\ cond o c = true.
Proof.
  unfold joined. rewrite in_flat_map. split.
  - intros [o' [Ho' Hin]]. apply in_flat_map in Hin.
    destruct Hin as [c [Hc Hin]].
    destruct (cond o' c) eqn:E; [| destruct Hin].
    destruct Hin as [<- | []]. eauto.
  - intros [Ho [c [Hc E]]]. exists o. split; [assumption |].
    apply in_flat_map. exists c. split; [assumption |].
    rewrite E. now left.
Qed.

Lemma inner_count o' o :
  count_occ Outlet_eq_dec
    (flat_map (fun c => if cond o' c then [o'] else []) cats) o
  = if Outlet_eq_dec o' o then List.length (filter (cond o) cats) else 0.
Proof.
  induction cats as [|c cs IH]; simpl.
  - now destruct (Outlet_eq_dec o' o).
  - rewrite count_occ_app, IH.
    destruct (Outlet_eq_dec o' o) as [-> | Hne].
    + destruct (cond o c); simpl; [| reflexivity].
      now destruct (Outlet_eq_dec o o).
    + destruct (cond o' c); simpl; [| reflexivity].
      now destruct (Outlet_eq_dec o' o).
Qed.

Lemma joined_count outs o :
  count_occ Outlet_eq_dec (joined cond cats outs) o
  = count_occ Outlet_eq_dec outs o * List.length (filter (cond o) cats).
Proof.
  unfold joined. induction outs as [|o' outs IH]; [reflexivity |].
  simpl flat_map. rewrite count_occ_app, IH, inner_count. simpl.
  destruct (Outlet_eq_dec o' o); lia.
Qed.

End Join.

Lemma mem_map_lower x cats :
  mem x (map lower cats) = existsb (fun cat => String.eqb x (lower cat)) cats.
Proof. unfold mem. induction cats; simpl; congruence. Qed.

(** One outlet passes the category test of the lookups exactly when it
    carries one of the categories. *)
Lemma carries_some db o cats :
  existsb (carries db o) cats = true
  <-> exists c, In c (categories db)
                /\ (id o =? outlet_id c)%Z = true
                /\ mem (lower (category c)) (map lower cats) = true.
Proof.
  rewrite existsb_exists. unfold carries. split.
  - intros [cat [Hcat Hc]]. apply existsb_exists in Hc.
    destruct Hc as [c [Hc E]]. apply andb_prop in E. destruct E as [E1 E2].
    exists c. repeat split; try assumption.
    rewrite mem_map_lower. apply existsb_exists. eauto.
  - intros [c [Hc [E1 E2]]]. rewrite mem_map_lower in E2.
    apply existsb_exists in E2. destruct E2 as [cat [Hcat E2]].
    exists cat. split; [assumption |]. apply existsb_exists.
    exists c. split; [assumption |]. now rewrite E1, E2.
Qed.

Lemma by_category_and_location_rows db categories_ location :
  get_outlets_or_empty
    (get_outlet_by_category_and_location db categories_ location)
  = joined
      (fun o c =>
         (id o =? outlet_id c)%Z
         && like (lower ("%" ++ lower location ++ "%")) (lower (address o))
         && mem (lower (category c)) (map lower (split_on "," categories_)))
      (categories db) (outlets db).
Proof.
  unfold get_outlet_by_category_and_location, get_outlets_or_empty, joined.
  simpl get. destruct (split_on "," categories_) eqn:E; [| reflexivity].
  destruct categories_ as [|c s]; simpl in E; [discriminate |].
  destruct (Ascii.eqb c ","); [discriminate |].
  destruct (split_on "," s); discriminate.
Qed.

Lemma truthy_set_true (s : list string) : s <> [] -> truthy_set s = true.
Proof. destruct s; [congruence | reflexivity]. Qed.

Lemma truthy_true (s : string) : s <> "" -> truthy s = true.
Proof. destruct s; [congruence | reflexivity]. Qed.

(** C2, on the code. When the category matcher finds a non-empty set and
    the location matcher a location, the route calls the lookup with the
    categories joined by commas, which the lookup splits back into the same
    categories, and formats its answer; an outlet is in that answer exactly
    when it carries at least one of the categories and its address contains
    the location up to case.  This is for ASCII text without NUL in the
    location and in the stored addresses, and for a location without LIKE
    wildcards and within the length limit of a LIKE pattern. *)
Theorem both_branch_lookup `{Fuzzy} `{StopWords} (db : Db)
    (locations : list string) (query loc : string) :
  let normalized := preprocess_query (lower query) in
  let cats := extract_category normalized in
  let category_string := join "," cats in
  let answer := get_outlet_by_category_and_location db category_string loc in
  cats <> [] ->
  extract_location locations normalized = Return (Some loc) ->
  ~ In "" locations ->
  no_wildcard loc = true ->
  sqlite_text loc = true ->
  fits_like loc = true ->
  (forall o, In o (outlets db) -> sqlite_text (address o) = true) ->
  chatbot_query db locations query
  = ([ExtractCategory normalized; ExtractLocation normalized;
      GetOutletByCategoryAndLocation category_string loc],
     Return (process_outlets_to_message answer))
  /\ split_on "," category_string = cats
  /\ forall o,
       In o (get_outlets_or_empty answer)
       <-> In o (outlets db)
           /\ existsb (carries db o) cats = true
           /\ contains (lower loc) (lower (address o)) = true.
Proof.
  intros normalized cats category_string answer Hcats Hloc Hvoc Hwild _ _ _.
  assert (Hsplit : split_on "," category_string = cats)
    by (apply split_on_join; [assumption | apply extract_category_nocomma]).
  split; [| split; [exact Hsplit |]].
  - unfold chatbot_query, calling, bind, ret. fold normalized. rewrite Hloc.
    fold cats. rewrite (truthy_set_true cats Hcats).
    assert (Hne : loc <> "").
    { intros ->. apply Hvoc. eapply extract_location_In. exact Hloc. }
    simpl truthy_location. rewrite (truthy_true loc Hne). reflexivity.
  - intros o. unfold answer.
    rewrite by_category_and_location_rows, joined_In, Hsplit.
    rewrite carries_some, (like_contains loc (address o) Hwild). split.
    + intros [Ho [c [Hc E]]].
      apply andb_prop in E. destruct E as [E E3].
      apply andb_prop in E. destruct E as [E1 E2]. eauto 7.
    + intros [Ho [[c [Hc [E1 E3]]] E2]]. split; [assumption |].
      exists c. split; [assumption |]. now rewrite E1, E2, E3.
Qed.

Lemma both_branch_lookup_witness :
  Sample.run "wifi in kuala lumpur"
  = ([ExtractCategory "wifi kuala lumpur";
      ExtractLocation "wifi kuala lumpur";
      GetOutletByCategoryAndLocation "WiFi" "Kuala Lumpur"],
     Return (process_outlets_to_message
               (get_outlet_by_category_and_location Sample.db "WiFi"
                  "Kuala Lumpur")))
  /\ get_outlets_or_empty
       (get_outlet_by_category_and_location Sample.db "WiFi" "Kuala Lumpur")
     = [ {| id := 1; name := " McDonald's Bukit Bintang ";
            address := "120 Jalan Bukit Bintang, 55100 Kuala Lumpur" |} ].
Proof.
  split; [| vm_compute; reflexivity].
  pose proof (@both_branch_lookup Sample.fuzzy Sample.stop_words Sample.db
                Sample.locations "wifi in kuala lumpur" "Kuala Lumpur") as W.
  cbv zeta in W. destruct W as [Hrun _].
  - vm_compute. discriminate.
  - vm_compute. reflexivity.
  - vm_compute. intuition discriminate.
  - vm_compute. reflexivity.
  - vm_compute. reflexivity.
  - vm_compute. reflexivity.
  - intros o Ho. vm_compute in Ho.
    repeat (destruct Ho as [<- | Ho]; [vm_compute; reflexivity |]).
    destruct Ho.
  - unfold Sample.run. etransitivity; [exact Hrun |].
    vm_compute. reflexivity.
Defined.

(** C2 as stated fails: for the categories 24 Hours and WiFi and the
    location Kuala Lumpur the lookup returns the Ampang outlet, which does
    not carry WiFi (and the Bukit Bintang outlet twice). *)
Lemma lookup_returns_outlet_missing_a_category :
  let ampang := {| id := 3; name := "McDonald's Ampang";
                   address := "Jalan Ampang, 50450 Kuala Lumpur" |} in
  fst (Sample.run "wifi and 24 hours in kuala lumpur")
  = [ExtractCategory "wifi and 24 hours kuala lumpur";
     ExtractLocation "wifi and 24 hours kuala lumpur";
     GetOutletByCategoryAndLocation "24 Hours,WiFi" "Kuala Lumpur"]
  /\ In ampang
       (get_outlets_or_empty
          (get_outlet_by_category_and_location Sample.db "24 Hours,WiFi"
             "Kuala Lumpur"))
  /\ carries Sample.db ampang "WiFi" = false
  /\ forallb (carries Sample.db ampang) ["24 Hours"; "WiFi"] = false.
Proof.
  intros ampang. split; [vm_compute; reflexivity |].
  split; [vm_compute; auto |].
  split; vm_compute; reflexivity.
Qed.

(** ** How often an outlet comes back *)

Lemma filter_andb {A} (f g : A -> bool) l :
  filter (fun x => f x && g x) l = filter g (filter f l).
Proof.
  induction l as [|x l IH]; simpl; [reflexivity |].
  destruct (f x); simpl; [destruct (g x) |]; congruence.
Qed.

Lemma filter_map_length {A B} (f : B -> bool) (g : A -> B) l :
  List.length (filter f (map g l))
  = List.length (filter (fun x => f (g x)) l).
Proof.
  induction l as [|x l IH]; simpl; [reflexivity |].
  destruct (f (g x)); simpl; congruence.
Qed.

(** Two duplicate-free lists have as many elements of the one in the other
    as the other way round. *)
Lemma common_length (a b : list string) :
  NoDup a -> NoDup b ->
  List.length (filter (fun x => mem x a) b)
  = List.length (filter (fun x => mem x b) a).
Proof.
  intros Ha Hb. apply Nat.le_antisymm; apply NoDup_incl_length;
    try (apply NoDup_filter; assumption);
    intros x Hx; apply filter_In in Hx; destruct Hx as [Hx1 Hx2];
    apply mem_In in Hx2; apply filter_In; split; try assumption;
    now apply mem_In.
Qed.

Lemma carries_mem db o cat :
  carries db o cat
  = mem (lower cat)
        (map (fun c => lower (category c))
             (filter (fun c => (id o =? outlet_id c)%Z) (categories db))).
Proof.
  unfold carries, mem. induction (categories db) as [|c cs IH];
    simpl; [reflexivity |].
  destruct (id o =? outlet_id c)%Z; simpl; rewrite IH; [| reflexivity].
  now rewrite String.eqb_sym.
Qed.

Lemma count_occ_map_le {A B} (decA : forall x y : A, {x = y} + {x <> y})
    (decB : forall x y : B, {x = y} + {x <> y}) (f : A -> B) l x :
  count_occ decA l x <= count_occ decB (map f l) (f x).
Proof.
  induction l as [|y l IH]; simpl; [lia |].
  destruct (decA y x) as [-> | ?].
  - destruct (decB (f x) (f x)); [lia | congruence].
  - destruct (decB (f y) (f x)); lia.
Qed.

(** X20. For ASCII text without NUL in the location,
    the given categories and the outlet's address, and a location within
    the length limit of a LIKE pattern: the lookup by categories and
    location returns an outlet (one row of [outlets], address containing
    the location up to case) once for each of the given categories it
    carries, when neither the given categories nor the outlet's stored
    categories repeat up to case; the message then has, between its header
    and its trailer, one block of stripped name and stripped address for
    each returned row, hence at least that many for the outlet.  The
    any-category lookup never returns a row twice. *)
Theorem join_repeats_outlets (db : Db) (categories_ location : string)
    (o : Outlet) :
  let cats := split_on "," categories_ in
  let answer := get_outlet_by_category_and_location db categories_ location in
  let rows := get_outlets_or_empty answer in
  let k := List.length (filter (carries db o) cats) in
  let rendered :=
    fun r : Outlet =>
      strip (name r) ++ LF ++ strip (address r) ++ LF ++ LF in
  sqlite_text location = true ->
  fits_like location = true ->
  sqlite_text categories_ = true ->
  sqlite_text (address o) = true ->
  count_occ Outlet_eq_dec (outlets db) o = 1 ->
  contains (lower location) (lower (address o)) = true ->
  NoDup (map lower cats) ->
  NoDup (map (fun c => lower (category c))
             (filter (fun c => (id o =? outlet_id c)%Z) (categories db))) ->
  count_occ Outlet_eq_dec rows o = k
  /\ (rows <> [] ->
      process_outlets_to_message answer
      = [("message",
          VStr (("Here are the outlets I found:" ++ LF ++ LF)
                ++ fold_right append "" (map rendered rows)
                ++ "If you need more information, please let me know!"))])
  /\ k <= count_occ string_dec (map rendered rows) (rendered o)
  /\ forall any_of,
       NoDup (get_outlets_or_empty (get_outlets_by_category db any_of)).
Proof.
  intros cats answer rows k rendered _ _ _ _ Hone Haddr Hcats Hstored.
  assert (Hk : count_occ Outlet_eq_dec rows o = k).
  { unfold rows, answer.
    rewrite by_category_and_location_rows, joined_count, Hone, Nat.mul_1_l.
    rewrite (contains_like _ _ Haddr). fold cats.
    rewrite (filter_ext _
               (fun c => (id o =? outlet_id c)%Z
                         && mem (lower (category c)) (map lower cats)))
      by (intros c; now rewrite andb_true_r).
    rewrite (filter_andb
               (fun c => (id o =? outlet_id c)%Z)
               (fun c => mem (lower (category c)) (map lower cats))).
    rewrite <- (filter_map_length (fun x => mem x (map lower cats))
                  (fun c => lower (category c))).
    rewrite common_length by assumption.
    rewrite filter_map_length. unfold k. f_equal.
    apply filter_ext. intros cat. symmetry. apply carries_mem. }
  split; [exact Hk | split; [| split]].
  - intros Hne. unfold process_outlets_to_message. fold rows.
    destruct rows as [|r rs]; [congruence |].
    rewrite fold_left_blocks, append_assoc_s. reflexivity.
  - rewrite <- Hk. apply (count_occ_map_le Outlet_eq_dec string_dec rendered).
  - intros any_of. unfold get_outlets_by_category.
    destruct any_of; [constructor |]. apply NoDup_nodup.
Qed.

Lemma join_repeats_outlets_witness :
  let bintang := {| id := 1; name := " McDonald's Bukit Bintang ";
                    address :=
                      "120 Jalan Bukit Bintang, 55100 Kuala Lumpur" |} in
  count_occ Outlet_eq_dec
    (get_outlets_or_empty
       (get_outlet_by_category_and_location Sample.db "24 Hours,WiFi"
          "Kuala Lumpur")) bintang = 2
  /\ count_occ Outlet_eq_dec
       (get_outlets_or_empty
          (get_outlets_by_category Sample.db ["24 Hours"; "WiFi"]))
       bintang = 1.
Proof.
  intros bintang. split; [| vm_compute; reflexivity].
  pose proof (join_repeats_outlets Sample.db "24 Hours,WiFi" "Kuala Lumpur"
                bintang) as W.
  cbv zeta in W. destruct W as [Hk _].
  - vm_compute. reflexivity.
  - vm_compute. reflexivity.
  - vm_compute. reflexivity.
  - vm_compute. reflexivity.
  - vm_compute. reflexivity.
  - vm_compute. reflexivity.
  - vm_compute. repeat constructor; simpl; intuition discriminate.
  - vm_compute. repeat constructor; simpl; intuition discriminate.
  - rewrite Hk. vm_compute. reflexivity.
Defined.

(** ** Title case *)

Lemma title_from_cons p c s :
  title_from p (String c s)
  = String (title_char p c) (title_from (cased c) s).
Proof.
  unfold title_char, cased. simpl.
  destruct (islower c); [reflexivity |]. now destruct (isupper c).
Qed.

Lemma cased_title_char p c : cased (title_char p c) = cased c.
Proof. destruct p; ascii_cases c. Qed.

Lemma title_char_idem p c : title_char p (title_char p c) = title_char p c.
Proof. destruct p; ascii_cases c. Qed.

Lemma lower_title_char p c : lower_char (title_char p c) = lower_char c.
Proof. destruct p; ascii_cases c. Qed.

Lemma title_from_idem s : forall p,
  title_from p (title_from p s) = title_from p s.
Proof.
  induction s as [|c s IH]; intros p; [reflexivity |].
  rewrite !title_from_cons, cased_title_char, title_char_idem, IH.
  reflexivity.
Qed.

Lemma title_from_truthy s : forall p, truthy (title_from p s) = truthy s.
Proof. destruct s; intros p; [reflexivity |]. now rewrite title_from_cons. Qed.

Lemma lower_title_from s : forall p, lower (title_from p s) = lower s.
Proof.
  induction s as [|c s IH]; intros p; [reflexivity |].
  rewrite title_from_cons. simpl. now rewrite lower_title_char, IH.
Qed.

Lemma split_lower s : split (lower s) = map lower (split s).
Proof.
  induction s as [|c s IH]; [reflexivity |].
  change (split (lower (String c s))) with
    (if isspace (lower_char c) then split (lower s)
     else match lower s with
          | EmptyString => [String (lower_char c) EmptyString]
          | String d _ =>
              if isspace d
              then String (lower_char c) EmptyString :: split (lower s)
              else match split (lower s) with
                   | w :: ws => String (lower_char c) w :: ws
                   | [] => [String (lower_char c) EmptyString]
                   end
          end).
  change (split (String c s)) with
    (if isspace c then split s
     else match s with
          | EmptyString => [String c EmptyString]
          | String d _ =>
              if isspace d then String c EmptyString :: split s
              else match split s with
                   | w :: ws => String c w :: ws
                   | [] => [String c EmptyString]
                   end
          end).
  rewrite isspace_lower_char, IH.
  destruct (isspace c); [reflexivity |].
  destruct s as [|d s]; [reflexivity |].
  cbn [lower]. rewrite isspace_lower_char.
  destruct (isspace d); [reflexivity |].
  now destruct (split (String d s)).
Qed.

(** ** The vocabulary builder *)

Lemma fold_add_part_In parts : forall acc e,
  In e (fold_left add_part parts acc) ->
  In e acc
  \/ exists part,
       In part parts /\ truthy (cleaned_part part) = true
       /\ e = title (cleaned_part part).
Proof.
  induction parts as [|p parts IH]; intros acc e He; simpl in He; [auto |].
  apply IH in He. destruct He as [He | [part [? [? ?]]]].
  - unfold add_part in He.
    destruct (truthy (cleaned_part p)) eqn:E; [| auto].
    apply set_add_In in He. destruct He as [-> | ?]; [| auto].
    right. exists p. simpl. auto.
  - right. exists part. simpl. auto.
Qed.

Lemma fold_add_part_NoDup parts : forall acc,
  NoDup acc -> NoDup (fold_left add_part parts acc).
Proof.
  induction parts as [|p parts IH]; intros acc Hacc; simpl; [assumption |].
  apply IH. unfold add_part.
  destruct (truthy (cleaned_part p)); auto using set_add_NoDup.
Qed.

Lemma fold_add_address_In addresses : forall acc e,
  In e (fold_left add_address addresses acc) ->
  In e acc
  \/ exists a part,
       In a addresses
       /\ In part (map strip (split_on "," (Re.sub_postal a)))
       /\ truthy (cleaned_part part) = true
       /\ e = title (cleaned_part part).
Proof.
  induction addresses as [|a l IH]; intros acc e He; simpl in He; [auto |].
  apply IH in He. destruct He as [He | [a' [part [? ?]]]].
  - unfold add_address in He. apply fold_add_part_In in He.
    destruct He as [? | [part [? ?]]]; [auto |].
    right. exists a, part. simpl. auto.
  - right. exists a', part. simpl. auto.
Qed.

Lemma fold_add_address_NoDup addresses : forall acc,
  NoDup acc -> NoDup (fold_left add_address addresses acc).
Proof.
  induction addresses as [|a l IH]; intros acc Hacc; simpl; [assumption |].
  apply IH. now apply fold_add_part_NoDup.
Qed.

(** Where an entry of the vocabulary comes from. *)
Lemma get_cleaned_locations_In db e :
  In e (get_cleaned_locations db) ->
  exists a part,
    In a (map address (outlets db))
    /\ In part (map strip (split_on "," (Re.sub_postal a)))
    /\ truthy (cleaned_part part) = true
    /\ e = title (cleaned_part part).
Proof.
  intros He. apply fold_add_address_In in He.
  destruct He as [[] | [a [part [Ha ?]]]].
  exists a, part. split; [| assumption].
  unfold distinct in Ha. now apply nodup_In in Ha.
Qed.

Lemma map_lower_fixed l :
  (forall w, In w l -> lower w = w) -> map lower l = l.
Proof.
  induction l as [|w l IH]; intros Hl; simpl; [reflexivity |].
  rewrite Hl by now left. rewrite IH; [reflexivity |].
  intros; apply Hl; now right.
Qed.

(** The words of a vocabulary entry, lower-cased, are the words of its
    address component that are not street-type words. *)
Lemma split_lower_title_cleaned part :
  split (lower (title (cleaned_part part)))
  = filter (fun word => negb (mem word STREET_PREFIXES)) (split (lower part)).
Proof.
  unfold title. rewrite lower_title_from, split_lower.
  unfold cleaned_part. rewrite split_strip_join_filter.
  apply map_lower_fixed. intros w Hw. apply filter_In in Hw.
  destruct Hw as [Hw _]. rewrite split_lower in Hw.
  apply in_map_iff in Hw. destruct Hw as [w' [<- _]]. apply lower_idem.
Qed.

(** X19. For stored addresses of ASCII text the
    vocabulary has no duplicates; each entry is non-empty, is its own
    title-casing, and none of its whitespace-delimited words equals a
    street prefix up to case. *)
Theorem location_vocabulary_invariant (db : Db) :
  (forall a, In a (map address (outlets db)) -> ascii_text a = true) ->
  NoDup (get_cleaned_locations db)
  /\ forall e,
       In e (get_cleaned_locations db) ->
       e <> ""
       /\ title e = e
       /\ forall word prefix_,
            In word (split e) -> In prefix_ STREET_PREFIXES ->
            lower word <> lower prefix_.
Proof.
  intros _. split.
  - apply fold_add_address_NoDup. constructor.
  - intros e He. apply get_cleaned_locations_In in He.
    destruct He as [a [part [_ [_ [Ht ->]]]]]. split; [| split].
    + intros E. unfold title in E.
      rewrite <- (title_from_truthy _ false), E in Ht. discriminate.
    + apply title_from_idem.
    + intros word prefix_ Hw Hp Heq.
      assert (Hin : In (lower word)
                       (split (lower (title (cleaned_part part)))))
        by (rewrite split_lower; now apply in_map).
      rewrite split_lower_title_cleaned in Hin.
      apply filter_In in Hin. destruct Hin as [_ Hin].
      apply negb_true_iff, mem_false in Hin. apply Hin.
      rewrite Heq. simpl in Hp |- *.
      repeat (destruct Hp as [<- | Hp]; [simpl; auto 10 |]).
      destruct Hp.
Qed.

Lemma location_vocabulary_invariant_witness :
  In "Pju 7/3" (get_cleaned_locations Sample.db)
  /\ "Pju 7/3" <> ""
  /\ title "Pju 7/3" = "Pju 7/3"
  /\ lower "Pju" <> lower "jalan".
Proof.
  assert (Hin : In "Pju 7/3" (get_cleaned_locations Sample.db))
    by (vm_compute; auto 10).
  destruct (location_vocabulary_invariant Sample.db) as [_ Hall].
  { intros a Ha. vm_compute in Ha.
    repeat (destruct Ha as [<- | Ha]; [vm_compute; reflexivity |]).
    destruct Ha. }
  destruct (Hall "Pju 7/3" Hin) as [Hne [Ht Hw]].
  split; [exact Hin | split; [exact Hne | split; [exact Ht |]]].
  apply (Hw "Pju" "jalan"); vm_compute; left; reflexivity.
Defined.

(** ** Postal codes *)

Section Postal.
Import Re.

Lemma not_word_not_digit c : isword c = false -> isdigit c = false.
Proof.
  intros Hw. destruct (isdigit c) eqn:E; [| reflexivity].
  apply isdigit_word in E. congruence.
Qed.

Lemma isword_comma : isword "," = false.
Proof. reflexivity. Qed.

(** *** A separator that is no word character cuts the search in two *)

Lemma dtb_app_sep c r w : forall n,
  isword c = false ->
  digits_then_boundary n (w ++ String c r) = digits_then_boundary n w.
Proof.
  intros n Hc. revert n. induction w as [|x w IH]; intros n.
  - destruct n; simpl; [now rewrite Hc |].
    now rewrite (not_word_not_digit c Hc).
  - destruct n; simpl; [reflexivity |]. now rewrite IH.
Qed.

Lemma search_app_sep c r w : forall b,
  isword c = false ->
  search_postal_from b (w ++ String c r)
  = search_postal_from b w || search_postal_from false r.
Proof.
  intros b Hc. revert b. induction w as [|x w IH]; intros b.
  - simpl append. cbn [search_postal_from]. rewrite Hc.
    cbn [digits_then_boundary]. rewrite (not_word_not_digit c Hc).
    now rewrite andb_false_r.
  - change (String x w ++ String c r) with (String x (w ++ String c r)).
    cbn [search_postal_from]. rewrite IH.
    change (String x (w ++ String c r)) with (String x w ++ String c r).
    rewrite (dtb_app_sep c r (String x w) 5 Hc).
    now rewrite orb_assoc.
Qed.

Lemma search_join c ws :
  isword c = false ->
  search_postal (join (String c "") ws) = existsb search_postal ws.
Proof.
  intros Hc. unfold search_postal.
  induction ws as [|w ws IH]; [reflexivity |].
  destruct ws as [|w' ws].
  - simpl. now rewrite orb_false_r.
  - change (join (String c "") (w :: w' :: ws))
      with (w ++ String c (join (String c "") (w' :: ws))).
    rewrite search_app_sep by assumption. now rewrite IH.
Qed.

Lemma split_on_not_nil sep s : split_on sep s <> [].
Proof.
  destruct s as [|c s]; simpl; [discriminate |].
  destruct (Ascii.eqb c sep); [discriminate |].
  destruct (split_on sep s); discriminate.
Qed.

Lemma join_split_on sep s : join (String sep "") (split_on sep s) = s.
Proof.
  induction s as [|c s IH]; [reflexivity |].
  simpl split_on. pose proof (split_on_not_nil sep s) as Hne.
  destruct (Ascii.eqb c sep) eqn:E.
  - apply Ascii.eqb_eq in E. subst c.
    destruct (split_on sep s) as [|w ws]; [congruence |].
    change (join (String sep "") ("" :: w :: ws))
      with (String sep (join (String sep "") (w :: ws))).
    now rewrite IH.
  - destruct (split_on sep s) as [|w ws]; [congruence |].
    destruct ws as [|w' ws].
    + simpl in IH |- *. now rewrite IH.
    + change (join (String sep "") (String c w :: w' :: ws))
        with (String c (join (String sep "") (w :: w' :: ws))).
      now rewrite IH.
Qed.

Lemma search_split_on s :
  existsb search_postal (split_on "," s) = search_postal s.
Proof.
  rewrite <- (search_join "," _ isword_comma). now rewrite join_split_on.
Qed.

(** *** Whitespace-delimited words carry the matches *)

Lemma split_cons_eq c s :
  split (String c s)
  = if isspace c then split s
    else match s with
         | EmptyString => [String c EmptyString]
         | String d _ =>
             if isspace d then String c EmptyString :: split s
             else match split s with
                  | w :: ws => String c w :: ws
                  | [] => [String c EmptyString]
                  end
         end.
Proof. reflexivity. Qed.

Lemma dtb_space n c s :
  isspace c = true ->
  digits_then_boundary n (String c s) = digits_then_boundary n "".
Proof.
  intros Hc. pose proof (isspace_not_word c Hc) as Hw.
  destruct n; simpl; [now rewrite Hw |].
  now rewrite (not_word_not_digit c Hw).
Qed.

(** Up to its first whitespace a string looks like its first word. *)
Lemma dtb_first_word s : forall c n,
  isspace c = false ->
  digits_then_boundary n (String c s)
  = digits_then_boundary n (hd "" (split (String c s))).
Proof.
  induction s as [|d s IH]; intros c n Hc.
  - simpl. now rewrite Hc.
  - rewrite split_cons_eq, Hc. destruct (isspace d) eqn:Hd.
    + destruct n; [reflexivity |]. cbn [hd digits_then_boundary].
      now rewrite (dtb_space n d s Hd).
    + pose proof (split_head_nonspace d s Hd) as Hne.
      specialize (IH d). destruct (split (String d s)) as [|w ws];
        [congruence |].
      destruct n; [reflexivity |]. cbn [hd digits_then_boundary].
      now rewrite (IH n Hd).
Qed.

Lemma search_split s : forall b,
  search_postal_from b s
  = match split s with
    | [] => false
    | w :: ws =>
        search_postal_from (first_state b s) w || existsb search_postal ws
    end.
Proof.
  unfold search_postal.
  induction s as [|c s IH]; intros b; [reflexivity |].
  rewrite split_cons_eq. cbn [search_postal_from first_state].
  destruct (isspace c) eqn:Hc.
  - pose proof (isspace_not_word c Hc) as Hw.
    rewrite (dtb_space 5 c s Hc), Hw. cbn [digits_then_boundary].
    rewrite andb_false_r, andb_false_r. cbn [orb].
    rewrite (IH false). destruct s as [|d s']; [reflexivity |].
    now destruct (split (String d s')).
  - rewrite andb_true_r. destruct s as [|d s'].
    + cbn [search_postal_from existsb]. now rewrite !orb_false_r.
    + destruct (isspace d) eqn:Hd.
      * pose proof (isspace_not_word d Hd) as Hw.
        rewrite (IH (isword c)). cbn [first_state]. rewrite Hd.
        rewrite andb_false_r.
        assert (E5 : digits_then_boundary 5 (String c (String d s'))
                     = digits_then_boundary 5 (String c "")).
        { cbn [digits_then_boundary].
          now rewrite (not_word_not_digit d Hw). }
        rewrite E5. cbn [search_postal_from existsb].
        rewrite orb_false_r.
        destruct (split (String d s')) as [|w ws]; reflexivity.
      * pose proof (split_head_nonspace d s' Hd) as Hne.
        pose proof (dtb_first_word s' d 4 Hd) as E4.
        rewrite (IH (isword c)). cbn [first_state]. rewrite Hd.
        rewrite andb_true_r.
        destruct (split (String d s')) as [|w ws]; [congruence |].
        cbn [hd] in E4. cbn [search_postal_from digits_then_boundary].
        cbn [digits_then_boundary] in E4. rewrite E4.
        now rewrite orb_assoc.
Qed.

Lemma search_words s : search_postal s = existsb search_postal (split s).
Proof.
  unfold search_postal at 1. rewrite search_split.
  destruct (split s) as [|w ws]; [reflexivity |].
  now destruct s.
Qed.

Lemma search_strip s : search_postal (strip s) = search_postal s.
Proof. now rewrite !search_words, split_strip. Qed.

(** *** Case changes do not move a match *)

Lemma dtb_same_class s t :
  same_class s t ->
  forall n, digits_then_boundary n s = digits_then_boundary n t.
Proof.
  induction 1 as [|c d s t Hd Hw _ IH]; intros n; [reflexivity |].
  destruct n; simpl; [now rewrite Hw |]. now rewrite Hd, IH.
Qed.

Lemma search_same_class s t :
  same_class s t ->
  forall b, search_postal_from b s = search_postal_from b t.
Proof.
  intros Hst. pose proof (dtb_same_class s t Hst) as Hdtb. revert Hdtb.
  induction Hst as [|c d s t Hd Hw Hst IH]; intros Hdtb b; [reflexivity |].
  cbn [search_postal_from]. rewrite (Hdtb 5), Hw, IH; [reflexivity |].
  apply dtb_same_class, Hst.
Qed.

Lemma class_lower_char c :
  isdigit (lower_char c) = isdigit c /\ isword (lower_char c) = isword c.
Proof. split; ascii_cases c. Qed.

Lemma class_title_char p c :
  isdigit (title_char p c) = isdigit c /\ isword (title_char p c) = isword c.
Proof. split; destruct p; ascii_cases c. Qed.

Lemma same_class_lower s : same_class (lower s) s.
Proof.
  induction s as [|c s IH]; [constructor |].
  simpl. constructor; [apply class_lower_char .. | exact IH].
Qed.

Lemma same_class_title s : forall p, same_class (title_from p s) s.
Proof.
  induction s as [|c s IH]; intros p; [constructor |].
  rewrite title_from_cons.
  constructor; [apply class_title_char .. | apply IH].
Qed.

Lemma search_lower s : search_postal (lower s) = search_postal s.
Proof. apply search_same_class, same_class_lower. Qed.

Lemma search_title s : search_postal (title s) = search_postal s.
Proof. apply search_same_class, same_class_title. Qed.

(** *** The substitution leaves no match *)

(** Inside a word the scan copies its input, as far as a run of digits and
    the character after it go. *)
Lemma dtb_sub_in_word s : forall n,
  digits_then_boundary n (sub_postal_from 0 true s)
  = digits_then_boundary n s.
Proof.
  induction s as [|c s IH]; intros n; [reflexivity |].
  cbn [sub_postal_from negb andb]. destruct n; [reflexivity |].
  cbn [digits_then_boundary]. destruct (isdigit c) eqn:Hd; [| reflexivity].
  rewrite (isdigit_word c Hd). now rewrite IH.
Qed.

Lemma dtb_cons n c s :
  digits_then_boundary (S n) (String c s)
  = isdigit c && digits_then_boundary n s.
Proof. reflexivity. Qed.

Lemma dtb_boundary c s :
  digits_then_boundary 0 (String c s) = negb (isword c).
Proof. reflexivity. Qed.

Lemma search_sub_from s : forall skip p q,
  scan_state skip p q s ->
  search_postal_from q (sub_postal_from skip p s) = false.
Proof.
  induction s as [|c s IH]; intros skip p q Hst; [reflexivity |].
  destruct skip as [|k].
  - cbn [sub_postal_from].
    destruct Hst as [<- | [-> [-> Hb]]].
    + destruct p.
      * cbn [negb andb search_postal_from orb]. apply IH. now left.
      * cbn [negb andb].
        destruct (digits_then_boundary 5 (String c s)) eqn:E.
        -- apply IH. rewrite dtb_cons in E.
           apply andb_prop in E. destruct E as [_ E]. now split.
        -- cbn [search_postal_from negb andb].
           rewrite (IH 0 (isword c) (isword c)) by now left.
           rewrite orb_false_r. rewrite dtb_cons in E |- *.
           destruct (isdigit c) eqn:Hd; [| reflexivity].
           rewrite (isdigit_word c Hd). rewrite dtb_sub_in_word.
           exact E.
    + rewrite dtb_boundary in Hb. apply negb_true_iff in Hb.
      cbn [negb andb search_postal_from orb].
      rewrite Hb, dtb_cons, (not_word_not_digit c Hb). cbn [andb orb].
      apply IH. now left.
  - cbn [sub_postal_from]. destruct Hst as [-> Hd].
    rewrite dtb_cons in Hd. apply andb_prop in Hd.
    destruct Hd as [Hc Hd]. rewrite (isdigit_word c Hc).
    apply IH. destruct k as [|k]; cbn [scan_state]; auto.
Qed.

Lemma search_sub_postal s : search_postal (sub_postal s) = false.
Proof. apply search_sub_from. now left. Qed.

Lemma existsb_false_In {A} (f : A -> bool) l x :
  existsb f l = false -> In x l -> f x = false.
Proof.
  intros Hl Hx. destruct (f x) eqn:E; [| reflexivity].
  rewrite <- Hl. symmetry. apply existsb_exists. eauto.
Qed.

Lemma existsb_filter_false {A} (f g : A -> bool) l :
  existsb f l = false -> existsb f (filter g l) = false.
Proof.
  intros Hl. destruct (existsb f (filter g l)) eqn:E; [| reflexivity].
  apply existsb_exists in E. destruct E as [x [Hx Hf]].
  apply filter_In in Hx. destruct Hx as [Hx _].
  now rewrite (existsb_false_In f l x Hl Hx) in Hf.
Qed.

Lemma search_cleaned_part part :
  search_postal part = false -> search_postal (cleaned_part part) = false.
Proof.
  intros Hp. unfold cleaned_part.
  rewrite search_words, split_strip_join_filter.
  apply existsb_filter_false. now rewrite <- search_words, search_lower.
Qed.

End Postal.

(** C5, on the code. For stored addresses of ASCII text, no entry of the
    vocabulary has a match of the postal code pattern: five digits with a
    word boundary on both sides.  (Five digits inside a longer run of
    digits, or next to a letter or an underscore, are no such match and
    stay.) *)
Theorem location_vocabulary_has_no_postal_code (db : Db) (e : string) :
  (forall a, In a (map address (outlets db)) -> ascii_text a = true) ->
  In e (get_cleaned_locations db) -> Re.search_postal e = false.
Proof.
  intros _ He. apply get_cleaned_locations_In in He.
  destruct He as [a [part [_ [Hpart [_ ->]]]]].
  rewrite search_title. apply search_cleaned_part.
  apply in_map_iff in Hpart. destruct Hpart as [p0 [<- Hp0]].
  rewrite search_strip.
  apply (existsb_false_In _ (split_on "," (Re.sub_postal a))); [| exact Hp0].
  rewrite search_split_on. apply search_sub_postal.
Qed.

Lemma location_vocabulary_has_no_postal_code_witness :
  In "Kuala Lumpur" (get_cleaned_locations Sample.db)
  /\ Re.search_postal "Kuala Lumpur" = false
  /\ Re.search_postal "120 Jalan Bukit Bintang, 55100 Kuala Lumpur" = true.
Proof.
  assert (Hin : In "Kuala Lumpur" (get_cleaned_locations Sample.db))
    by (vm_compute; right; left; reflexivity).
  split; [exact Hin | split; [| vm_compute; reflexivity]].
  apply (location_vocabulary_has_no_postal_code Sample.db); [| exact Hin].
  intros a Ha. vm_compute in Ha.
  repeat (destruct Ha as [<- | Ha]; [vm_compute; reflexivity |]).
  destruct Ha.
Defined.

(** C5 as stated fails: the address 123456 Jalan Ampang holds five digits
    in a row, and so does the entry 123456 Ampang built from it; likewise
    Lot A12345. *)
Lemma five_digits_survive_in_vocabulary :
  let db := {| outlets :=
                 [ {| id := 1; name := "A";
                      address := "123456 Jalan Ampang, Lot A12345, 50450 KL" |} ];
               categories := [] |} in
  Re.search_five_digits "123456 Jalan Ampang, Lot A12345, 50450 KL" = true
  /\ get_cleaned_locations db = ["123456 Ampang"; "Lot A12345"; "Kl"]
  /\ Re.search_five_digits "123456 Ampang" = true
  /\ Re.search_five_digits "Lot A12345" = true.
Proof. intros db. repeat split; vm_compute; reflexivity. Qed.

(** * Further properties *)

(** ** The normaliser's output *)

Lemma token_head w :
  token w = true -> exists c w', w = String c w' /\ isspace c = false.
Proof.
  unfold token. destruct w as [|c w']; [discriminate |].
  simpl. intros Hw. apply andb_prop in Hw. destruct Hw as [Hc _].
  apply negb_true_iff in Hc. eauto.
Qed.

Lemma join_tokens_head w ws :
  token w = true ->
  exists c r, join " " (w :: ws) = String c r /\ isspace c = false.
Proof.
  intros Hw. destruct (token_head w Hw) as [c [w' [-> Hc]]].
  destruct ws; simpl; eauto.
Qed.

Lemma lstrip_join ws :
  Forall (fun w => token w = true) ws -> lstrip (join " " ws) = join " " ws.
Proof.
  intros Hws. destruct Hws as [|w ws Hw _]; [reflexivity |].
  destruct (join_tokens_head w ws Hw) as [c [r [-> Hc]]].
  simpl. now rewrite Hc.
Qed.

Lemma rstrip_cons c s :
  rstrip (String c s)
  = match rstrip s with
    | EmptyString => if isspace c then EmptyString else String c EmptyString
    | String d r => String c (String d r)
    end.
Proof. reflexivity. Qed.

Lemma rstrip_nospace w : nospace w = true -> rstrip w = w.
Proof.
  induction w as [|c w IH]; [reflexivity |].
  simpl. intros Hw. apply andb_prop in Hw. destruct Hw as [Hc Hw].
  apply negb_true_iff in Hc. rewrite (IH Hw), Hc. now destruct w.
Qed.

Lemma rstrip_app a b :
  rstrip b <> "" -> rstrip (a ++ b) = a ++ rstrip b.
Proof.
  intros Hb. induction a as [|c a IH]; [reflexivity |].
  simpl. rewrite IH. destruct (a ++ rstrip b) eqn:E; [| reflexivity].
  destruct a; simpl in E; [congruence | discriminate].
Qed.

Lemma rstrip_join ws :
  Forall (fun w => token w = true) ws -> rstrip (join " " ws) = join " " ws.
Proof.
  induction 1 as [|w ws Hw Hws IH]; [reflexivity |].
  destruct ws as [|w' ws].
  - simpl. apply rstrip_nospace. unfold token in Hw.
    now apply andb_prop in Hw.
  - change (join " " (w :: w' :: ws))
      with (w ++ String " " (join " " (w' :: ws))).
    inversion Hws as [|? ? Hw' _]; subst.
    destruct (join_tokens_head w' ws Hw') as [c [r [E Hc]]].
    assert (Hr : rstrip (String " " (join " " (w' :: ws)))
                 = String " " (join " " (w' :: ws))).
    { rewrite rstrip_cons, IH, E. reflexivity. }
    rewrite rstrip_app; rewrite Hr; [reflexivity | discriminate].
Qed.

Lemma strip_join ws :
  Forall (fun w => token w = true) ws -> strip (join " " ws) = join " " ws.
Proof.
  intros Hws. unfold strip. now rewrite lstrip_join, rstrip_join.
Qed.

Lemma lower_join ws : lower (join " " ws) = join " " (map lower ws).
Proof.
  induction ws as [|w ws IH]; [reflexivity |].
  destruct ws as [|w' ws]; [reflexivity |].
  change (join " " (w :: w' :: ws))
    with (w ++ String " " (join " " (w' :: ws))).
  rewrite lower_append.
  change (lower (String " " (join " " (w' :: ws))))
    with (String " " (lower (join " " (w' :: ws)))).
  rewrite IH. reflexivity.
Qed.

Lemma filter_idem {A} (f : A -> bool) l :
  filter f (filter f l) = filter f l.
Proof.
  induction l as [|x l IH]; simpl; [reflexivity |].
  destruct (f x) eqn:E; simpl; [rewrite E |]; congruence.
Qed.

Lemma lower_words_fixed f s :
  map lower (filter f (split (lower s))) = filter f (split (lower s)).
Proof.
  apply map_lower_fixed. intros w Hw. apply filter_In in Hw.
  destruct Hw as [Hw _]. rewrite split_lower in Hw.
  apply in_map_iff in Hw. destruct Hw as [w' [<- _]]. apply lower_idem.
Qed.

Section Normaliser.
Context `{StopWords}.

Lemma preprocess_query_join query :
  preprocess_query query
  = join " " (filter (fun word => negb (mem word STOP_WORDS))
                     (split (lower query))).
Proof.
  unfold preprocess_query. apply strip_join, Forall_filter, split_tokens.
Qed.

Lemma preprocess_query_words query :
  split (preprocess_query query)
  = filter (fun word => negb (mem word STOP_WORDS)) (split (lower query)).
Proof. apply split_strip_join_filter. Qed.

Lemma preprocess_query_lower query :
  lower (preprocess_query query) = preprocess_query query.
Proof.
  rewrite preprocess_query_join, lower_join. now rewrite lower_words_fixed.
Qed.

(** X1. The normalised query is its own words joined by single spaces (so
    it has no leading, trailing or repeated whitespace); these words are
    the words of the lower-cased query that are no stop words, in their
    order; and it is in lower case. *)
Theorem preprocess_query_normal_form (query : string) :
  let normalized := preprocess_query query in
  normalized = join " " (split normalized)
  /\ split normalized
     = filter (fun word => negb (mem word STOP_WORDS)) (split (lower query))
  /\ lower normalized = normalized.
Proof.
  intros normalized. split; [| split].
  - unfold normalized. rewrite preprocess_query_words.
    apply preprocess_query_join.
  - apply preprocess_query_words.
  - apply preprocess_query_lower.
Qed.

(** X2. Normalising is idempotent, and the lower-casing the chatbot route
    does before it changes nothing. *)
Theorem preprocess_query_idempotent (query : string) :
  preprocess_query (preprocess_query query) = preprocess_query query
  /\ preprocess_query (lower query) = preprocess_query query.
Proof.
  split.
  - rewrite (preprocess_query_join (preprocess_query query)).
    rewrite preprocess_query_lower, preprocess_query_words, filter_idem.
    symmetry. apply preprocess_query_join.
  - unfold preprocess_query. now rewrite lower_idem.
Qed.

End Normaliser.

(** ** The location matcher, whatever the scores *)

Lemma title_char_lower_char p c :
  title_char p (lower_char c) = title_char p c
  /\ cased (lower_char c) = cased c.
Proof. split; destruct p; ascii_cases c. Qed.

Lemma title_from_lower s : forall p,
  title_from p (lower s) = title_from p s.
Proof.
  induction s as [|c s IH]; intros p; [reflexivity |].
  change (lower (String c s)) with (String (lower_char c) (lower s)).
  rewrite !title_from_cons.
  destruct (title_char_lower_char p c) as [-> ->]. now rewrite IH.
Qed.

Section LocationResults.
Context `{Fuzzy}.
Variable locations : list string.
Variable query : string.

Lemma extractWithoutOrder_In r :
  In r (Process.extractWithoutOrder query locations)
  <-> In (fst r) locations
      /\ snd r = default_scorer query (fst r) /\ (0 <= snd r)%Z.
Proof.
  unfold Process.extractWithoutOrder. rewrite filter_In, in_map_iff. split.
  - intros [[c [<- Hc]] Hpos]. apply Z.leb_le in Hpos. simpl in *. auto.
  - intros [Hc [Hs Hpos]]. split; [| now apply Z.leb_le].
    exists (fst r). split; [| assumption].
    destruct r as [c sc]. simpl in *. now subst.
Qed.

Lemma extractOne_Some best score :
  Process.extractOne query locations = Some (best, score) ->
  In best locations
  /\ score = default_scorer query best
  /\ (0 <= score)%Z
  /\ forall c, In c locations -> (default_scorer query c <= score)%Z.
Proof.
  unfold Process.extractOne.
  destruct (Process.extractWithoutOrder query locations) as [|r rs] eqn:E;
    [discriminate |].
  intros Hbest. inversion Hbest as [Hmax]. clear Hbest.
  pose proof (max_by_score_In rs r) as Hin.
  pose proof (max_by_score_upper rs r) as Hup.
  rewrite Hmax in Hin, Hup. rewrite <- E in Hin, Hup.
  apply extractWithoutOrder_In in Hin. simpl in Hin.
  destruct Hin as [Hin [Hs Hpos]]. repeat split; try assumption.
  intros c Hc. destruct (Z.le_gt_cases 0 (default_scorer query c)) as [Hc0 | Hc0];
    [| lia].
  apply (Hup (c, default_scorer query c)).
  apply extractWithoutOrder_In. simpl. auto.
Qed.

Lemma extractOne_None :
  Process.extractOne query locations = None ->
  forall c, In c locations -> (default_scorer query c < 0)%Z.
Proof.
  unfold Process.extractOne.
  destruct (Process.extractWithoutOrder query locations) as [|r rs] eqn:E;
    [| discriminate].
  intros _ c Hc.
  destruct (Z.le_gt_cases 0 (default_scorer query c)) as [Hc0 | Hc0]; [| lia].
  assert (Hin : In (c, default_scorer query c)
                   (Process.extractWithoutOrder query locations))
    by (apply extractWithoutOrder_In; simpl; auto).
  rewrite E in Hin. destruct Hin.
Qed.

End LocationResults.

(** X3. What each answer of the location matcher means, for any scorer: a
    location is an entry of the vocabulary whose score against the
    title-cased query exceeds 80 and is the highest of all; [None] means
    some entry has a score of 0 or more and none has one above 80; the
    exception means that no entry has a score of 0 or more (in particular
    that there is no entry). *)
Theorem extract_location_answers `{Fuzzy} (locations : list string)
    (query : string) :
  match extract_location locations query with
  | Return (Some loc) =>
      In loc locations
      /\ (80 < default_scorer (title query) loc)%Z
      /\ forall c, In c locations ->
           (default_scorer (title query) c
            <= default_scorer (title query) loc)%Z
  | Return None =>
      (exists c, In c locations /\ (0 <= default_scorer (title query) c)%Z)
      /\ forall c, In c locations ->
           (default_scorer (title query) c <= 80)%Z
  | Raise _ =>
      forall c, In c locations -> (default_scorer (title query) c < 0)%Z
  end.
Proof.
  unfold extract_location.
  destruct (Process.extractOne (title query) locations) as [[best score]|]
    eqn:E.
  - apply extractOne_Some in E. destruct E as [Hin [-> [Hpos Hmax]]].
    destruct (80 <? default_scorer (title query) best)%Z eqn:E80.
    + apply Z.ltb_lt in E80. auto.
    + apply Z.ltb_ge in E80. split; [eauto |].
      intros c Hc. specialize (Hmax c Hc). lia.
  - now apply extractOne_None.
Qed.

Lemma extract_location_answers_witness :
  @extract_location Sample.fuzzy Sample.locations "ampang park"
  = Return (Some "Ampang")
  /\ In "Ampang" Sample.locations
  /\ (80 < @default_scorer Sample.fuzzy (title "ampang park") "Ampang")%Z.
Proof.
  pose proof (@extract_location_answers Sample.fuzzy Sample.locations
                "ampang park") as W.
  assert (E : @extract_location Sample.fuzzy Sample.locations "ampang park"
              = Return (Some "Ampang")) by (vm_compute; reflexivity).
  rewrite E in W. destruct W as [Hin [Hsc _]].
  split; [exact E | split; [exact Hin | exact Hsc]].
Defined.

(** X4. The location matcher does not see the case of an ASCII query: two
    queries of ASCII text that agree up to case get the same answer. *)
Theorem extract_location_ignores_case `{Fuzzy} (locations : list string)
    (query1 query2 : string) :
  ascii_text query1 = true ->
  ascii_text query2 = true ->
  lower query1 = lower query2 ->
  extract_location locations query1 = extract_location locations query2.
Proof.
  intros _ _ Hq. unfold extract_location, title.
  rewrite <- (title_from_lower query1), <- (title_from_lower query2), Hq.
  reflexivity.
Qed.

Lemma extract_location_ignores_case_witness :
  @extract_location Sample.fuzzy Sample.locations "BUKIT bintang 120"
  = @extract_location Sample.fuzzy Sample.locations "bukit BINTANG 120".
Proof.
  apply (@extract_location_ignores_case Sample.fuzzy);
    vm_compute; reflexivity.
Defined.

(** *** Ties *)

Lemma max_by_score_first rest : forall first,
  exists before after,
    first :: rest
    = (before ++ Process.max_by_score first rest :: after)%list
    /\ forall r, In r before ->
         (snd r < snd (Process.max_by_score first rest))%Z.
Proof.
  induction rest as [|x rest IH]; intros first.
  - exists [], []. split; [reflexivity | intros r []].
  - change (Process.max_by_score first (x :: rest))
      with (Process.max_by_score
              (if (snd first <? snd x)%Z then x else first) rest).
    destruct (snd first <? snd x)%Z eqn:E.
    + apply Z.ltb_lt in E. destruct (IH x) as [before [after [Heq Hlt]]].
      exists (first :: before), after. split.
      * cbn [app]. f_equal. exact Heq.
      * intros r [<- | Hr]; [| now apply Hlt].
        pose proof (max_by_score_upper rest x x (or_introl eq_refl)). lia.
    + apply Z.ltb_ge in E. destruct (IH first) as [before [after [Heq Hlt]]].
      destruct before as [|b before].
      * cbn [app] in Heq. injection Heq as Hf Hr.
        exists [], (x :: rest). split; [| intros r []].
        cbn [app]. f_equal. exact Hf.
      * cbn [app] in Heq. injection Heq as Hf Hr. subst b.
        exists (first :: x :: before), after. split.
        -- cbn [app]. do 2 f_equal. exact Hr.
        -- intros r [<- | [<- | Hr']].
           ++ apply Hlt. now left.
           ++ specialize (Hlt first (or_introl eq_refl)). lia.
           ++ apply Hlt. now right.
Qed.

(** X5. With scores that are never negative, the location returned is the
    first entry of the vocabulary, in its order, that has the best score:
    every entry before it scores strictly less. *)
Theorem extract_location_first_of_best `{Fuzzy} (locations : list string)
    (query loc : string) :
  (forall c, In c locations -> (0 <= default_scorer (title query) c)%Z) ->
  extract_location locations query = Return (Some loc) ->
  exists before after,
    locations = (before ++ loc :: after)%list
    /\ forall c, In c before ->
         (default_scorer (title query) c
          < default_scorer (title query) loc)%Z.
Proof.
  intros Hpos. unfold extract_location, Process.extractOne.
  rewrite (extractWithoutOrder_all _ _ Hpos).
  destruct locations as [|l ls]; [discriminate |]. simpl map.
  pose (f := fun c : string => (c, default_scorer (title query) c)).
  change (map (fun choice => (choice, default_scorer (title query) choice)) ls)
    with (map f ls).
  change (l, default_scorer (title query) l) with (f l).
  destruct (max_by_score_first (map f ls) (f l)) as [before [after [Heq Hlt]]].
  destruct (Process.max_by_score (f l) (map f ls)) as [m sc] eqn:Em.
  destruct (80 <? sc)%Z; [| discriminate].
  intros Hret. injection Hret as ->.
  change (f l :: map f ls) with (map f (l :: ls)) in Heq.
  apply map_eq_app in Heq.
  destruct Heq as [before0 [rest0 [Hl [Hb Hr]]]].
  apply map_eq_cons in Hr. destruct Hr as [x [after0 [-> [Hx _]]]].
  unfold f in Hx. injection Hx as -> <-.
  exists before0, after0. split; [exact Hl |].
  intros c Hc. specialize (Hlt (f c)). cbn [snd f] in Hlt. apply Hlt.
  rewrite <- Hb. now apply in_map.
Qed.

Lemma sample_scores_nonneg query c :
  (0 <= @default_scorer Sample.fuzzy query c)%Z.
Proof.
  cbv [default_scorer Sample.fuzzy].
  repeat match goal with
         | |- context [if ?b then _ else _] => destruct b
         end; lia.
Qed.

Lemma extract_location_first_of_best_witness :
  let vocabulary := ["Kuala Lumpur"; "Bukit Bintang"; "Kuala"; "Bintang"] in
  @extract_location Sample.fuzzy vocabulary "bintang kuala"
  = Return (Some "Kuala")
  /\ exists before after,
       vocabulary = (before ++ "Kuala" :: after)%list
       /\ forall c, In c before ->
            (@default_scorer Sample.fuzzy (title "bintang kuala") c
             < @default_scorer Sample.fuzzy (title "bintang kuala") "Kuala")%Z.
Proof.
  intros vocabulary.
  assert (E : @extract_location Sample.fuzzy vocabulary "bintang kuala"
              = Return (Some "Kuala")) by (vm_compute; reflexivity).
  split; [exact E |].
  apply (@extract_location_first_of_best Sample.fuzzy vocabulary
           "bintang kuala" "Kuala"); [| exact E].
  intros c _. apply sample_scores_nonneg.
Defined.

(** ** The single-criterion lookups *)

Lemma lower_pattern loc :
  lower ("%" ++ lower loc ++ "%") = "%" ++ lower loc ++ "%".
Proof.
  change ("%" ++ lower loc ++ "%") with (String "%" (lower loc ++ "%")).
  change (lower (String "%" (lower loc ++ "%")))
    with (String "%" (lower (lower loc ++ "%"))).
  now rewrite lower_append, lower_idem.
Qed.

Lemma by_location_rows db loc :
  get_outlets_or_empty (get_outlets_by_location db loc)
  = filter (fun o => like ("%" ++ lower loc ++ "%") (lower (address o)))
           (outlets db).
Proof.
  unfold get_outlets_by_location.
  now destruct (filter _ (outlets db)).
Qed.

Lemma joined_none cond cats outs :
  (forall o c, cond o c = false) -> joined cond cats outs = [].
Proof.
  intros Hcond. unfold joined.
  induction outs as [|o outs IH]; simpl; [reflexivity |].
  rewrite IH, app_nil_r. clear IH.
  induction cats as [|c cs IHc]; simpl; [reflexivity |].
  rewrite Hcond. exact IHc.
Qed.

Lemma by_category_rows db any_of :
  get_outlets_or_empty (get_outlets_by_category db any_of)
  = distinct Outlet_eq_dec
      (joined (fun o c => (id o =? outlet_id c)%Z
                          && mem (lower (category c)) (map lower any_of))
              (categories db) (outlets db)).
Proof.
  destruct any_of as [|a any_of]; [| reflexivity].
  rewrite joined_none; [reflexivity |].
  intros o c. apply andb_false_r.
Qed.

Lemma by_category_In db any_of o :
  In o (get_outlets_or_empty (get_outlets_by_category db any_of))
  <-> In o (outlets db) /\ existsb (carries db o) any_of = true.
Proof.
  rewrite by_category_rows. unfold distinct. rewrite nodup_In, joined_In.
  rewrite carries_some. split.
  - intros [Ho [c [Hc E]]]. apply andb_prop in E. destruct E as [E1 E2].
    eauto 6.
  - intros [Ho [c [Hc [E1 E2]]]]. split; [assumption |].
    exists c. split; [assumption |]. now rewrite E1, E2.
Qed.

(** X6. For ASCII text without NUL in the location and in the stored
    addresses, and a location within the length limit of a LIKE pattern:
    the lookup by location returns every outlet whose address contains the
    location up to case, also when the location holds [%] or [_]; when it
    holds neither, it returns exactly these outlets, in the order of the
    table.  When there is none the answer has no list of outlets but a
    message, which the formatter replaces by its own. *)
Theorem get_outlets_by_location_spec (db : Db) (location : string) :
  let answer := get_outlets_by_location db location in
  let rows := get_outlets_or_empty answer in
  sqlite_text location = true ->
  fits_like location = true ->
  (forall o, In o (outlets db) -> sqlite_text (address o) = true) ->
  (forall o,
     In o (outlets db) ->
     contains (lower location) (lower (address o)) = true -> In o rows)
  /\ (no_wildcard location = true ->
      rows = filter (fun o => contains (lower location) (lower (address o)))
                    (outlets db))
  /\ (rows <> [] -> answer = [("outlets", VOutlets rows)])
  /\ (rows = [] ->
      answer = [("message", VStr "No outlets found in this location.")]
      /\ process_outlets_to_message answer
         = [("message", VStr "No outlets found for your request.")]).
Proof.
  intros answer rows _ _ _.
  assert (Hrows : rows
                  = filter (fun o => like ("%" ++ lower location ++ "%")
                                          (lower (address o))) (outlets db))
    by apply by_location_rows.
  split; [| split; [| split]].
  - intros o Ho Hc. rewrite Hrows. apply filter_In. split; [assumption |].
    rewrite <- lower_pattern. now apply contains_like.
  - intros Hw. rewrite Hrows. apply filter_ext. intros o.
    rewrite <- lower_pattern. now apply like_contains.
  - intros Hne. unfold answer, get_outlets_by_location. rewrite <- Hrows.
    destruct rows; [congruence | reflexivity].
  - intros Hnil.
    assert (E : answer
                = [("message", VStr "No outlets found in this location.")]).
    { unfold answer, get_outlets_by_location. rewrite <- Hrows.
      now rewrite Hnil. }
    split; [exact E | now rewrite E].
Qed.

Lemma get_outlets_by_location_spec_witness :
  get_outlets_or_empty (get_outlets_by_location Sample.db "the CURVE")
  = [ {| id := 2; name := "McDonald's The Curve";
         address :=
           "Lot G1, The Curve, Jalan PJU 7/3, 47800 Petaling Jaya " |} ]
  /\ process_outlets_to_message
       (get_outlets_by_location Sample.db "Bangsar")
     = [("message", VStr "No outlets found for your request.")].
Proof.
  assert (Hstore : forall o, In o (outlets Sample.db) ->
                             sqlite_text (address o) = true).
  { intros o Ho. vm_compute in Ho.
    repeat (destruct Ho as [<- | Ho]; [vm_compute; reflexivity |]).
    destruct Ho. }
  pose proof (get_outlets_by_location_spec Sample.db "the CURVE"
                eq_refl eq_refl Hstore) as [_ [Hexact _]].
  pose proof (get_outlets_by_location_spec Sample.db "Bangsar"
                eq_refl eq_refl Hstore) as [_ [_ [_ Hnone]]].
  split.
  - rewrite Hexact; vm_compute; reflexivity.
  - apply Hnone. vm_compute. reflexivity.
Defined.

(** X7. The lookup by categories and location returns the outlets that
    the lookup by any of these categories and the lookup by this location
    both return. *)
Theorem both_lookup_is_intersection (db : Db) (categories_ location : string)
    (o : Outlet) :
  In o (get_outlets_or_empty
          (get_outlet_by_category_and_location db categories_ location))
  <-> In o (get_outlets_or_empty
              (get_outlets_by_category db (split_on "," categories_)))
      /\ In o (get_outlets_or_empty (get_outlets_by_location db location)).
Proof.
  rewrite by_category_and_location_rows, joined_In.
  rewrite by_category_In, carries_some, by_location_rows, filter_In.
  rewrite lower_pattern. split.
  - intros [Ho [c [Hc E]]].
    apply andb_prop in E. destruct E as [E E3].
    apply andb_prop in E. destruct E as [E1 E2]. eauto 10.
  - intros [[Ho [c [Hc [E1 E3]]]] [_ E2]]. split; [assumption |].
    exists c. split; [assumption |]. now rewrite E1, E2, E3.
Qed.

(** ** The route, branch by branch *)

Lemma process_outlets_to_message_rows d1 d2 :
  get_outlets_or_empty d1 = get_outlets_or_empty d2 ->
  process_outlets_to_message d1 = process_outlets_to_message d2.
Proof. intros E. unfold process_outlets_to_message. now rewrite E. Qed.

Lemma process_outlets_to_message_is_message d :
  exists message, process_outlets_to_message d = [("message", VStr message)].
Proof.
  unfold process_outlets_to_message.
  destruct (get_outlets_or_empty d); eauto.
Qed.

(** X8. When the category matcher finds categories and the location
    matcher answers [None], the route looks up by category only and
    formats what it gets: every outlet of the store that carries at least
    one of the categories, each one once. *)
Theorem category_only_route `{Fuzzy} `{StopWords} (db : Db)
    (locations : list string) (query : string) :
  let normalized := preprocess_query (lower query) in
  let cats := extract_category normalized in
  cats <> [] ->
  extract_location locations normalized = Return None ->
  exists rows,
    chatbot_query db locations query
    = ([ExtractCategory normalized; ExtractLocation normalized;
        GetOutletsByCategory cats],
       Return (process_outlets_to_message [("outlets", VOutlets rows)]))
    /\ NoDup rows
    /\ forall o,
         In o rows
         <-> In o (outlets db) /\ existsb (carries db o) cats = true.
Proof.
  intros normalized cats Hcats Hloc.
  exists (get_outlets_or_empty (get_outlets_by_category db cats)).
  split; [| split].
  - unfold chatbot_query, calling, bind, ret. fold normalized. rewrite Hloc.
    fold cats. rewrite (truthy_set_true cats Hcats). reflexivity.
  - rewrite by_category_rows. apply NoDup_nodup.
  - intros o. apply by_category_In.
Qed.

Lemma category_only_route_witness :
  exists rows,
    Sample.run "Which outlets are 24 hours?"
    = ([ExtractCategory "outlets 24 hours?";
        ExtractLocation "outlets 24 hours?";
        GetOutletsByCategory ["24 Hours"]],
       Return (process_outlets_to_message [("outlets", VOutlets rows)]))
    /\ NoDup rows.
Proof.
  pose proof (@category_only_route Sample.fuzzy Sample.stop_words Sample.db
                Sample.locations "Which outlets are 24 hours?") as W.
  cbv zeta in W. destruct W as [rows [Hrun [Hnd _]]].
  - vm_compute. discriminate.
  - vm_compute. reflexivity.
  - exists rows. split; [| exact Hnd].
    unfold Sample.run. etransitivity; [exact Hrun |].
    vm_compute. reflexivity.
Defined.

(** X9. When the category matcher finds nothing and the location matcher
    a location (free of LIKE wildcards, from a vocabulary without the empty
    string), the route looks up by location only and formats, in the order
    of the table, the outlets whose address contains the location up to
    case; the lookup's own message for no outlet is never the answer.  This
    is for ASCII text without NUL in the location and in the stored
    addresses, and a location within the length limit of a LIKE
    pattern. *)
Theorem location_only_route `{Fuzzy} `{StopWords} (db : Db)
    (locations : list string) (query loc : string) :
  let normalized := preprocess_query (lower query) in
  extract_category normalized = [] ->
  extract_location locations normalized = Return (Some loc) ->
  ~ In "" locations ->
  no_wildcard loc = true ->
  sqlite_text loc = true ->
  fits_like loc = true ->
  (forall o, In o (outlets db) -> sqlite_text (address o) = true) ->
  chatbot_query db locations query
  = ([ExtractCategory normalized; ExtractLocation normalized;
      GetOutletsByLocation loc],
     Return (process_outlets_to_message
               [("outlets",
                 VOutlets
                   (filter (fun o => contains (lower loc) (lower (address o)))
                           (outlets db)))])).
Proof.
  intros normalized Hcats Hloc Hvoc Hwild _ _ _.
  assert (Hne : loc <> "").
  { intros ->. apply Hvoc. eapply extract_location_In. exact Hloc. }
  unfold chatbot_query, calling, bind, ret. fold normalized.
  rewrite Hloc, Hcats. simpl truthy_set. simpl truthy_location.
  rewrite (truthy_true loc Hne). simpl.
  apply f_equal. apply f_equal. apply process_outlets_to_message_rows.
  rewrite by_location_rows. simpl get_outlets_or_empty.
  apply filter_ext. intros o. rewrite <- lower_pattern.
  now apply like_contains.
Qed.

Lemma location_only_route_witness :
  Sample.run "Which outlets are in Petaling Jaya"
  = ([ExtractCategory "outlets petaling jaya";
      ExtractLocation "outlets petaling jaya";
      GetOutletsByLocation "Petaling Jaya"],
     Return (process_outlets_to_message
               [("outlets",
                 VOutlets
                   [ {| id := 2; name := "McDonald's The Curve";
                        address :=
                          "Lot G1, The Curve, Jalan PJU 7/3, 47800 Petaling Jaya " |} ])])).
Proof.
  pose proof (@location_only_route Sample.fuzzy Sample.stop_words Sample.db
                Sample.locations "Which outlets are in Petaling Jaya"
                "Petaling Jaya") as W.
  cbv zeta in W. unfold Sample.run. etransitivity.
  - apply W.
    + vm_compute. reflexivity.
    + vm_compute. reflexivity.
    + vm_compute. intros Hin.
      repeat (destruct Hin as [Hin | Hin]; [discriminate |]). exact Hin.
    + vm_compute. reflexivity.
    + vm_compute. reflexivity.
    + vm_compute. reflexivity.
    + intros o Ho. vm_compute in Ho.
      repeat (destruct Ho as [<- | Ho]; [vm_compute; reflexivity |]).
      destruct Ho.
  - vm_compute. reflexivity.
Defined.

(** X10. With a vocabulary that is not empty, whose entries are ASCII
    text without NUL within the length limit of a LIKE pattern, and scores
    that are never negative, the unpacking in the location matcher does
    not fail and the lookups' patterns are within SQLite's limit: after
    its two matcher calls the route makes at most one lookup and returns a
    dictionary with the one key message. *)
Theorem chatbot_query_returns_message `{Fuzzy} `{StopWords} (db : Db)
    (locations : list string) (query : string) :
  locations <> [] ->
  (forall l, In l locations -> sqlite_text l = true /\ fits_like l = true) ->
  (forall o, In o (outlets db) -> sqlite_text (address o) = true) ->
  (forall q c, (0 <= default_scorer q c)%Z) ->
  exists lookups message,
    chatbot_query db locations query
    = (ExtractCategory (preprocess_query (lower query))
       :: ExtractLocation (preprocess_query (lower query)) :: lookups,
       Return [("message", VStr message)])
    /\ List.length lookups <= 1
    /\ forallb is_lookup lookups = true.
Proof.
  intros Hne _ _ Hpos.
  destruct (extract_location_nonempty locations
              (preprocess_query (lower query)) Hne)
    as [best [_ [_ Hret]]]; [intros; apply Hpos |].
  unfold chatbot_query, calling, bind, ret. rewrite Hret.
  set (location := if (80 <? _)%Z then Some best else None).
  destruct (truthy_set (extract_category (preprocess_query (lower query))));
    destruct (truthy_location location); simpl;
    try (match goal with
         | |- context [process_outlets_to_message ?d] =>
             destruct (process_outlets_to_message_is_message d) as [m ->]
         end);
    eexists; eexists; (split; [reflexivity | split; [simpl; lia | reflexivity]]).
Qed.

Lemma chatbot_query_returns_message_witness :
  exists lookups message,
    Sample.run "wifi near ampang"
    = (ExtractCategory "wifi near ampang"
       :: ExtractLocation "wifi near ampang" :: lookups,
       Return [("message", VStr message)])
    /\ List.length lookups <= 1.
Proof.
  destruct (@chatbot_query_returns_message Sample.fuzzy Sample.stop_words
              Sample.db Sample.locations "wifi near ampang")
    as [lookups [message [Hrun [Hlen _]]]].
  - vm_compute. discriminate.
  - intros l Hl. vm_compute in Hl.
    repeat (destruct Hl as [<- | Hl]; [split; vm_compute; reflexivity |]).
    destruct Hl.
  - intros o Ho. vm_compute in Ho.
    repeat (destruct Ho as [<- | Ho]; [vm_compute; reflexivity |]).
    destruct Ho.
  - intros q c. apply sample_scores_nonneg.
  - exists lookups, message. split; [| exact Hlen].
    unfold Sample.run. etransitivity; [exact Hrun |].
    vm_compute. reflexivity.
Defined.

(** ** The vocabulary builder: what gets in *)

Lemma set_add_keeps x s e : In e s -> In e (set_add x s).
Proof. intros He. apply set_add_In. now right. Qed.

Lemma add_part_keeps acc part e : In e acc -> In e (add_part acc part).
Proof.
  intros He. unfold add_part.
  destruct (truthy (cleaned_part part)); auto using set_add_keeps.
Qed.

Lemma fold_add_part_keeps parts : forall acc e,
  In e acc -> In e (fold_left add_part parts acc).
Proof.
  induction parts as [|p parts IH]; intros acc e He; simpl; [assumption |].
  apply IH. now apply add_part_keeps.
Qed.

Lemma fold_add_part_adds parts : forall acc part,
  In part parts -> truthy (cleaned_part part) = true ->
  In (title (cleaned_part part)) (fold_left add_part parts acc).
Proof.
  induction parts as [|p parts IH]; intros acc part Hin Ht; [destruct Hin |].
  simpl. destruct Hin as [-> | Hin].
  - apply fold_add_part_keeps. unfold add_part. rewrite Ht.
    apply set_add_In. now left.
  - now apply IH.
Qed.

Lemma fold_add_address_keeps addresses : forall acc e,
  In e acc -> In e (fold_left add_address addresses acc).
Proof.
  induction addresses as [|a l IH]; intros acc e He; simpl; [assumption |].
  apply IH. unfold add_address. now apply fold_add_part_keeps.
Qed.

Lemma fold_add_address_adds addresses : forall acc a part,
  In a addresses ->
  In part (map strip (split_on "," (Re.sub_postal a))) ->
  truthy (cleaned_part part) = true ->
  In (title (cleaned_part part)) (fold_left add_address addresses acc).
Proof.
  induction addresses as [|a0 l IH]; intros acc a part Ha Hp Ht;
    [destruct Ha |].
  simpl. destruct Ha as [-> | Ha].
  - apply fold_add_address_keeps. unfold add_address.
    now apply fold_add_part_adds.
  - now apply (IH _ a).
Qed.

Lemma get_cleaned_locations_iff db e :
  In e (get_cleaned_locations db)
  <-> exists a part,
        In a (map address (outlets db))
        /\ In part (map strip (split_on "," (Re.sub_postal a)))
        /\ truthy (cleaned_part part) = true
        /\ e = title (cleaned_part part).
Proof.
  split; [apply get_cleaned_locations_In |].
  intros [a [part [Ha [Hp [Ht ->]]]]].
  apply (fold_add_address_adds _ _ a); try assumption.
  unfold distinct. now apply nodup_In.
Qed.

(** X11. The vocabulary holds exactly the title-cased cleaned components
    that are not empty, over all stored addresses and all their
    comma-separated components after the postal codes are removed: none is
    lost and nothing else gets in. *)
Theorem get_cleaned_locations_exact (db : Db) (e : string) :
  In e (get_cleaned_locations db)
  <-> exists a part,
        In a (map address (outlets db))
        /\ In part (map strip (split_on "," (Re.sub_postal a)))
        /\ cleaned_part part <> ""
        /\ e = title (cleaned_part part).
Proof.
  rewrite get_cleaned_locations_iff.
  split; intros [a [part [Ha [Hp [Ht He]]]]]; exists a, part;
    repeat split; try assumption.
  - intros E. rewrite E in Ht. discriminate.
  - now apply truthy_true.
Qed.

(** ** The vocabulary builder: the shape of an entry *)

Lemma title_from_app_space w r : forall p,
  title_from p (w ++ String " " r)
  = title_from p w ++ String " " (title_from false r).
Proof.
  induction w as [|c w IH]; intros p.
  - simpl append. rewrite title_from_cons. now destruct p.
  - change (String c w ++ String " " r) with (String c (w ++ String " " r)).
    rewrite !title_from_cons, IH. reflexivity.
Qed.

Lemma title_from_join ws : forall w p,
  title_from p (join " " (w :: ws))
  = join " " (title_from p w :: map title ws).
Proof.
  induction ws as [|w' ws IH]; intros w p; [reflexivity |].
  change (join " " (w :: w' :: ws))
    with (w ++ String " " (join " " (w' :: ws))).
  rewrite title_from_app_space, IH. reflexivity.
Qed.

Lemma title_join ws : title (join " " ws) = join " " (map title ws).
Proof. destruct ws as [|w ws]; [reflexivity | apply title_from_join]. Qed.

Lemma isspace_title_char p c : isspace (title_char p c) = isspace c.
Proof. destruct p; ascii_cases c. Qed.

Lemma nospace_title_from w : forall p,
  nospace (title_from p w) = nospace w.
Proof.
  induction w as [|c w IH]; intros p; [reflexivity |].
  rewrite title_from_cons. simpl. now rewrite isspace_title_char, IH.
Qed.

Lemma token_title w : token (title w) = token w.
Proof.
  unfold token, title. now rewrite title_from_truthy, nospace_title_from.
Qed.

Lemma cleaned_part_join part :
  cleaned_part part
  = join " " (filter (fun word => negb (mem word STREET_PREFIXES))
                     (split (lower part))).
Proof.
  unfold cleaned_part. apply strip_join, Forall_filter, split_tokens.
Qed.

Lemma Forall_map_token ws :
  Forall (fun w => token w = true) ws ->
  Forall (fun w => token w = true) (map title ws).
Proof.
  induction 1; simpl; constructor; [now rewrite token_title | assumption].
Qed.

(** X12. An entry of the vocabulary is its own words joined by single
    spaces, so it has no leading, trailing or repeated whitespace; its
    words are the kept words of one address component, each title-cased on
    its own. *)
Theorem vocabulary_entry_shape (db : Db) (e : string) :
  In e (get_cleaned_locations db) ->
  e = join " " (split e)
  /\ exists a part,
       In a (map address (outlets db))
       /\ In part (map strip (split_on "," (Re.sub_postal a)))
       /\ split e
          = map title
                (filter (fun word => negb (mem word STREET_PREFIXES))
                        (split (lower part))).
Proof.
  intros He. apply get_cleaned_locations_In in He.
  destruct He as [a [part [Ha [Hp [_ ->]]]]].
  assert (Hsplit :
    split (title (cleaned_part part))
    = map title (filter (fun word => negb (mem word STREET_PREFIXES))
                        (split (lower part)))).
  { rewrite cleaned_part_join, title_join. apply split_join.
    apply Forall_map_token, Forall_filter, split_tokens. }
  split.
  - rewrite Hsplit. now rewrite cleaned_part_join at 1; rewrite title_join.
  - exists a, part. auto.
Qed.

Lemma vocabulary_entry_shape_witness :
  In "Pju 7/3" (get_cleaned_locations Sample.db)
  /\ "Pju 7/3" = join " " (split "Pju 7/3").
Proof.
  assert (Hin : In "Pju 7/3" (get_cleaned_locations Sample.db))
    by (vm_compute; do 4 right; left; reflexivity).
  split; [exact Hin |].
  exact (proj1 (vocabulary_entry_shape Sample.db "Pju 7/3" Hin)).
Defined.

(** ** The postal-code substitution *)

Lemma sub_postal_from_fixed s : forall p,
  Re.search_postal_from p s = false -> Re.sub_postal_from 0 p s = s.
Proof.
  induction s as [|c s IH]; intros p Hs; [reflexivity |].
  cbn [Re.search_postal_from] in Hs. apply orb_false_elim in Hs.
  destruct Hs as [Hm Hs]. cbn [Re.sub_postal_from]. rewrite Hm.
  now rewrite IH.
Qed.

(** X13. The substitution of postal codes leaves a string as it is
    exactly when the string has no match of the pattern, and substituting
    twice gives what substituting once gives. *)
Theorem sub_postal_fixed_point (s : string) :
  (Re.sub_postal s = s <-> Re.search_postal s = false)
  /\ Re.sub_postal (Re.sub_postal s) = Re.sub_postal s.
Proof.
  split; [split |].
  - intros E. rewrite <- E. apply search_sub_postal.
  - apply sub_postal_from_fixed.
  - apply sub_postal_from_fixed. apply search_sub_postal.
Qed.

(** ** The vocabulary builder does not see the case of the addresses *)

Lemma sub_postal_from_lower s : forall skip p,
  Re.sub_postal_from skip p (lower s) = lower (Re.sub_postal_from skip p s).
Proof.
  induction s as [|c s IH]; intros skip p; [reflexivity |].
  pose proof (dtb_same_class _ _ (same_class_lower (String c s)) 5) as E5.
  destruct (class_lower_char c) as [_ Hw].
  change (lower (String c s)) with (String (lower_char c) (lower s)) in *.
  cbn [Re.sub_postal_from]. rewrite E5, Hw.
  destruct skip as [|k]; [| apply IH].
  destruct (negb p && Re.digits_then_boundary 5 (String c s));
    [apply IH |].
  change (lower (String c (Re.sub_postal_from 0 (Re.isword c) s)))
    with (String (lower_char c)
                 (lower (Re.sub_postal_from 0 (Re.isword c) s))).
  now rewrite IH.
Qed.

Lemma comma_lower_char c : Ascii.eqb (lower_char c) "," = Ascii.eqb c ",".
Proof. ascii_cases c. Qed.

Lemma split_on_lower s :
  split_on "," (lower s) = map lower (split_on "," s).
Proof.
  induction s as [|c s IH]; [reflexivity |].
  change (lower (String c s)) with (String (lower_char c) (lower s)).
  simpl split_on. rewrite comma_lower_char, IH.
  destruct (Ascii.eqb c ","); [reflexivity |].
  now destruct (split_on "," s).
Qed.

Lemma lstrip_lower s : lstrip (lower s) = lower (lstrip s).
Proof.
  induction s as [|c s IH]; [reflexivity |].
  simpl. rewrite isspace_lower_char. now destruct (isspace c).
Qed.

Lemma rstrip_lower s : rstrip (lower s) = lower (rstrip s).
Proof.
  induction s as [|c s IH]; [reflexivity |].
  change (lower (String c s)) with (String (lower_char c) (lower s)).
  rewrite !rstrip_cons, IH, isspace_lower_char.
  destruct (rstrip s); [now destruct (isspace c) | reflexivity].
Qed.

Lemma strip_lower s : strip (lower s) = lower (strip s).
Proof. unfold strip. now rewrite lstrip_lower, rstrip_lower. Qed.

(** The components of an address, as the builder cuts them. *)
Lemma parts_lower a :
  map strip (split_on "," (Re.sub_postal (lower a)))
  = map lower (map strip (split_on "," (Re.sub_postal a))).
Proof.
  unfold Re.sub_postal. rewrite sub_postal_from_lower, split_on_lower.
  rewrite !map_map. apply map_ext. intros p. apply strip_lower.
Qed.

Lemma cleaned_part_lower part : cleaned_part (lower part) = cleaned_part part.
Proof. unfold cleaned_part. now rewrite lower_idem. Qed.

Lemma parts_up_to_case a1 a2 part :
  lower a1 = lower a2 ->
  In part (map strip (split_on "," (Re.sub_postal a1))) ->
  exists part',
    In part' (map strip (split_on "," (Re.sub_postal a2)))
    /\ cleaned_part part' = cleaned_part part.
Proof.
  intros Ha Hp. apply (in_map lower) in Hp.
  rewrite <- parts_lower, Ha, parts_lower in Hp.
  apply in_map_iff in Hp. destruct Hp as [part' [E Hp']].
  exists part'. split; [assumption |].
  now rewrite <- (cleaned_part_lower part'), E, cleaned_part_lower.
Qed.

Lemma entries_up_to_case db1 db2 e :
  (forall a, In a (map address (outlets db1)) ->
             exists a', In a' (map address (outlets db2))
                        /\ lower a' = lower a) ->
  In e (get_cleaned_locations db1) -> In e (get_cleaned_locations db2).
Proof.
  intros Hsub. rewrite !get_cleaned_locations_iff.
  intros [a [part [Ha [Hp [Ht ->]]]]].
  destruct (Hsub a Ha) as [a' [Ha' Hl]].
  destruct (parts_up_to_case a a' part (eq_sym Hl) Hp) as [part' [Hp' E]].
  exists a', part'. rewrite E. auto.
Qed.

(** X14. For stored addresses of ASCII text, the entries of the
    vocabulary depend only on the set of addresses taken up to case: two
    stores whose addresses are the same once lower-cased, in whatever
    order and number of copies, give the same entries. *)
Theorem get_cleaned_locations_ignores_case (db1 db2 : Db) :
  (forall a, In a (map address (outlets db1)) -> ascii_text a = true) ->
  (forall a, In a (map address (outlets db2)) -> ascii_text a = true) ->
  (forall a, In a (map lower (map address (outlets db1)))
             <-> In a (map lower (map address (outlets db2)))) ->
  forall e, In e (get_cleaned_locations db1)
            <-> In e (get_cleaned_locations db2).
Proof.
  intros _ _ Hsame e.
  assert (Hsub : forall dba dbb,
    (forall a, In a (map lower (map address (outlets dba)))
               -> In a (map lower (map address (outlets dbb)))) ->
    forall a, In a (map address (outlets dba)) ->
              exists a', In a' (map address (outlets dbb))
                         /\ lower a' = lower a).
  { intros dba dbb Hincl a Ha. apply (in_map lower) in Ha.
    apply Hincl, in_map_iff in Ha. destruct Ha as [a' [E Ha']]. eauto. }
  split; apply entries_up_to_case; apply Hsub; intros a; apply Hsame.
Qed.

Lemma get_cleaned_locations_ignores_case_witness :
  let db2 := {| outlets :=
                  [ {| id := 9; name := "";
                       address := "JALAN AMPANG, 50450 kuala LUMPUR" |};
                    {| id := 8; name := "";
                       address := "Jalan Ampang, 50450 Kuala Lumpur" |} ];
                categories := [] |} in
  let db1 := {| outlets :=
                  [ {| id := 3; name := "McDonald's Ampang";
                       address := "Jalan Ampang, 50450 Kuala Lumpur" |} ];
                categories := [] |} in
  get_cleaned_locations db1 = ["Ampang"; "Kuala Lumpur"]
  /\ (In "Kuala Lumpur" (get_cleaned_locations db1)
      <-> In "Kuala Lumpur" (get_cleaned_locations db2)).
Proof.
  intros db2 db1. split; [vm_compute; reflexivity |].
  apply (get_cleaned_locations_ignores_case db1 db2).
  - intros a Ha. vm_compute in Ha.
    repeat (destruct Ha as [<- | Ha]; [vm_compute; reflexivity |]).
    destruct Ha.
  - intros a Ha. vm_compute in Ha.
    repeat (destruct Ha as [<- | Ha]; [vm_compute; reflexivity |]).
    destruct Ha.
  - intros a. vm_compute. tauto.
Defined.

(** ** The other routes *)

Import Routes.

Lemma contains_empty s : contains "" s = true.
Proof. now destruct s. Qed.

Lemma filter_all {A} (f : A -> bool) l :
  (forall x, In x l -> f x = true) -> filter f l = l.
Proof.
  induction l as [|x l IH]; intros Hf; simpl; [reflexivity |].
  rewrite (Hf x) by now left. rewrite IH; [reflexivity |].
  intros; apply Hf; now right.
Qed.

Lemma length_lower s : String.length (lower s) = String.length s.
Proof. induction s; simpl; congruence. Qed.

Lemma length_append a b :
  String.length (a ++ b) = String.length a + String.length b.
Proof. induction a; simpl; congruence. Qed.

Lemma like_pattern_too_long_fits text :
  like_pattern_too_long (lower ("%" ++ lower text ++ "%"))
  = negb (fits_like text).
Proof.
  unfold like_pattern_too_long, like_pattern_limit, fits_like.
  rewrite lower_pattern.
  change ("%" ++ lower text ++ "%") with (String "%" (lower text ++ "%")).
  cbn [String.length]. rewrite length_append, length_lower. simpl String.length.
  destruct (N.ltb_spec 50000 (N.of_nat (S (String.length text + 1))));
    destruct (N.leb_spec (N.of_nat (String.length text) + 2) 50000);
    simpl; try reflexivity; lia.
Qed.

(** X15. For ASCII text without NUL in the query and in the stored names:
    when the query is within the length limit of a LIKE pattern, the
    search by name returns every outlet whose name contains the query up
    to case, also when the query holds [%] or [_]; exactly these outlets,
    in the order of the table, when it holds neither; and for the empty
    query every outlet, as the route listing all outlets does.  When the
    query is over the limit the search fails if the table has a row, and
    returns no outlet if it has none. *)
Theorem search_outlets_spec (db : Db) (query : string) :
  sqlite_text query = true ->
  (forall o, In o (outlets db) -> sqlite_text (name o) = true) ->
  (fits_like query = true ->
   exists rows,
     search_outlets db query = Ok [("outlets", JRows rows)]
     /\ (forall o,
           In o (outlets db) ->
           contains (lower query) (lower (name o)) = true -> In o rows)
     /\ (no_wildcard query = true ->
         rows = filter (fun o => contains (lower query) (lower (name o)))
                       (outlets db))
     /\ (query = "" ->
         rows = outlets db
         /\ search_outlets db query = Ok (get_outlets db)))
  /\ (fits_like query = false -> outlets db <> [] ->
      search_outlets db query = Error OperationalError)
  /\ (outlets db = [] ->
      search_outlets db query = Ok [("outlets", JRows [])]).
Proof.
  intros _ _. split; [| split].
  - intros Hfits.
    exists (filter (fun o => like (lower ("%" ++ lower query ++ "%"))
                                  (lower (name o))) (outlets db)).
    assert (Hrun : search_outlets db query
                   = Ok [("outlets",
                          JRows (filter (fun o =>
                                   like (lower ("%" ++ lower query ++ "%"))
                                        (lower (name o))) (outlets db)))]).
    { unfold search_outlets. rewrite like_pattern_too_long_fits, Hfits.
      now destruct (outlets db). }
    assert (Hexact : no_wildcard query = true ->
      filter (fun o => like (lower ("%" ++ lower query ++ "%"))
                            (lower (name o))) (outlets db)
      = filter (fun o => contains (lower query) (lower (name o)))
               (outlets db)).
    { intros Hw. apply filter_ext. intros o. now apply like_contains. }
    split; [exact Hrun | split; [| split; [exact Hexact |]]].
    + intros o Ho Hc. apply filter_In. split; [assumption |].
      now apply contains_like.
    + intros Hq. subst query.
      assert (E : filter (fun o => like (lower ("%" ++ lower "" ++ "%"))
                                        (lower (name o))) (outlets db)
                  = outlets db).
      { rewrite Hexact by reflexivity. apply filter_all.
        intros o _. apply contains_empty. }
      split; [exact E |]. rewrite Hrun, E. reflexivity.
  - intros Hfits Hne. unfold search_outlets.
    rewrite like_pattern_too_long_fits, Hfits.
    destruct (outlets db); [congruence | reflexivity].
  - intros Hnil. unfold search_outlets. now rewrite Hnil.
Qed.

Lemma search_outlets_spec_witness :
  search_outlets Sample.db "curve"
  = Ok [("outlets",
         JRows [ {| id := 2; name := "McDonald's The Curve";
                    address :=
                      "Lot G1, The Curve, Jalan PJU 7/3, 47800 Petaling Jaya " |} ])]
  /\ search_outlets Sample.db "" = Ok (get_outlets Sample.db).
Proof.
  split; [vm_compute; reflexivity |].
  assert (Hstore : forall o, In o (outlets Sample.db) ->
                             sqlite_text (name o) = true).
  { intros o Ho. vm_compute in Ho.
    repeat (destruct Ho as [<- | Ho]; [vm_compute; reflexivity |]).
    destruct Ho. }
  destruct (search_outlets_spec Sample.db "" eq_refl Hstore) as [Hfit _].
  destruct (Hfit eq_refl) as [rows [_ [_ [_ Hall]]]].
  exact (proj2 (Hall eq_refl)).
Defined.

(** X16. The lookup of one outlet by its identifier raises
    [OverflowError] for an identifier outside the 64-bit range.  For one
    inside it, it answers the first row with that identifier, and a null
    outlet, not an error, exactly when no row has it; when no two rows
    share an identifier, every stored outlet is the answer for its own
    identifier. *)
Theorem get_outlet_spec (db : Db) :
  (forall i, int64 i = false -> get_outlet db i = Error OverflowError)
  /\ (forall i o,
        get_outlet db i = Ok [("outlet", JRow o)] ->
        In o (outlets db) /\ id o = i)
  /\ (forall i,
        int64 i = true ->
        (get_outlet db i = Ok [("outlet", JNull)]
         <-> forall o, In o (outlets db) -> id o <> i))
  /\ (NoDup (map id (outlets db)) ->
      forall o, In o (outlets db) -> int64 (id o) = true ->
                get_outlet db (id o) = Ok [("outlet", JRow o)]).
Proof.
  unfold get_outlet, fetchone. split; [| split; [| split]].
  - intros i Hi. now rewrite Hi.
  - intros i o Hget. destruct (int64 i); [| discriminate].
    destruct (filter (fun o0 => (id o0 =? i)%Z) (outlets db)) as [|r rs] eqn:E;
      [discriminate |].
    injection Hget as ->.
    assert (Hin : In o (filter (fun o0 => (id o0 =? i)%Z) (outlets db)))
      by (rewrite E; now left).
    apply filter_In in Hin. destruct Hin as [Hin Hid].
    apply Z.eqb_eq in Hid. auto.
  - intros i Hi. rewrite Hi. split.
    + intros Hget o Ho Hid.
      destruct (filter (fun o0 => (id o0 =? i)%Z) (outlets db)) as [|r rs] eqn:E;
        [| discriminate].
      assert (Hin : In o (filter (fun o0 => (id o0 =? i)%Z) (outlets db)))
        by (apply filter_In; split; [assumption | now apply Z.eqb_eq]).
      rewrite E in Hin. destruct Hin.
    + intros Hnone.
      destruct (filter (fun o0 => (id o0 =? i)%Z) (outlets db)) as [|r rs] eqn:E;
        [reflexivity |].
      assert (Hin : In r (filter (fun o0 => (id o0 =? i)%Z) (outlets db)))
        by (rewrite E; now left).
      apply filter_In in Hin. destruct Hin as [Hin Hid].
      apply Z.eqb_eq in Hid. now apply Hnone in Hin.
  - intros Hnd o Ho Hi. rewrite Hi.
    induction (outlets db) as [|r rs IH]; [destruct Ho |].
    simpl in Hnd. inversion Hnd as [|? ? Hnotin Hnd']; subst.
    simpl filter. destruct (id r =? id o)%Z eqn:E.
    + apply Z.eqb_eq in E. destruct Ho as [-> | Ho]; [reflexivity |].
      exfalso. apply Hnotin. rewrite E. now apply in_map.
    + destruct Ho as [-> | Ho]; [now rewrite Z.eqb_refl in E |].
      now apply IH.
Qed.

Lemma get_outlet_spec_witness :
  get_outlet Sample.db 2
  = Ok [("outlet",
         JRow {| id := 2; name := "McDonald's The Curve";
                 address :=
                   "Lot G1, The Curve, Jalan PJU 7/3, 47800 Petaling Jaya " |})]
  /\ get_outlet Sample.db 7 = Ok [("outlet", JNull)]
  /\ get_outlet Sample.db (2 ^ 63) = Error OverflowError.
Proof.
  destruct (get_outlet_spec Sample.db) as [Hover [_ [Hnull Hrow]]].
  split; [| split].
  - apply (Hrow ltac:(vm_compute; repeat constructor; simpl;
                      intros Hin;
                      repeat (destruct Hin as [Hin | Hin]; [discriminate |]);
                      exact Hin)
                {| id := 2; name := "McDonald's The Curve";
                   address :=
                     "Lot G1, The Curve, Jalan PJU 7/3, 47800 Petaling Jaya " |}).
    + vm_compute. right. left. reflexivity.
    + vm_compute. reflexivity.
  - apply Hnull; [vm_compute; reflexivity |]. intros o Ho. vm_compute in Ho.
    repeat (destruct Ho as [<- | Ho]; [discriminate |]). destruct Ho.
  - apply Hover. vm_compute. reflexivity.
Defined.

(** X17. For an outlet whose identifier is within the 64-bit range and
    categories of ASCII text without NUL, the services route and the
    category lookup read the same rows: the outlet is returned by the
    lookup for these categories exactly when it is stored and one of the
    services listed for its identifier is one of the categories up to
    case. *)
Theorem services_agree_with_category_lookup (db : Db) (o : Outlet)
    (any_of : list string) :
  int64 (id o) = true ->
  (forall cat, In cat any_of -> sqlite_text cat = true) ->
  exists services,
    get_outlet_services db (id o)
    = Ok [("outlet_id", JInt (id o)); ("services", JStrings services)]
    /\ (In o (get_outlets_or_empty (get_outlets_by_category db any_of))
        <-> In o (outlets db)
            /\ exists service,
                 In service services
                 /\ In (lower service) (map lower any_of)).
Proof.
  intros Hi _. unfold get_outlet_services. rewrite Hi.
  eexists. split; [reflexivity |].
  rewrite by_category_In, carries_some. split.
  - intros [Ho [c [Hc [E1 E2]]]]. split; [assumption |].
    exists (category c). split; [| now apply mem_In].
    apply in_map, filter_In. split; [assumption |].
    now rewrite Z.eqb_sym.
  - intros [Ho [s [Hs Hl]]]. split; [assumption |].
    apply in_map_iff in Hs. destruct Hs as [c [<- Hc]].
    apply filter_In in Hc. destruct Hc as [Hc E].
    exists c. split; [assumption |]. split; [now rewrite Z.eqb_sym |].
    now apply mem_In.
Qed.

Lemma services_agree_with_category_lookup_witness :
  let curve := {| id := 2; name := "McDonald's The Curve";
                  address :=
                    "Lot G1, The Curve, Jalan PJU 7/3, 47800 Petaling Jaya " |} in
  get_outlet_services Sample.db 2
  = Ok [("outlet_id", JInt 2); ("services", JStrings ["WiFi"])]
  /\ In curve (get_outlets_or_empty
                 (get_outlets_by_category Sample.db ["wifi"])).
Proof.
  intros curve. split; [vm_compute; reflexivity |].
  destruct (services_agree_with_category_lookup Sample.db curve ["wifi"])
    as [services [Hrun Hiff]].
  - vm_compute. reflexivity.
  - intros cat [<- | []]. vm_compute. reflexivity.
  - apply Hiff. split; [vm_compute; right; left; reflexivity |].
    assert (E : services = ["WiFi"]).
    { assert (Hc : get_outlet_services Sample.db (id curve)
                   = Ok [("outlet_id", JInt 2);
                         ("services", JStrings ["WiFi"])])
        by (vm_compute; reflexivity).
      rewrite Hc in Hrun. now injection Hrun as <-. }
    subst services. exists "WiFi". split; [now left |].
    vm_compute. now left.
Defined.

(** ** The categories handed to the lookups *)

(** X18. Whatever the scorer, the category matcher returns labels of the
    table only, at most twelve of them; and a result that is not empty
    survives the route's encoding: joined by commas and split on commas
    again it is the same list, and an empty result is never sent (it would
    come back as one empty category). *)
Theorem extract_category_round_trip `{Fuzzy} (query : string) :
  incl (extract_category query) (map fst OUTLET_CATEGORIES)
  /\ List.length (extract_category query) <= 12
  /\ (extract_category query <> [] ->
      split_on "," (join "," (extract_category query))
      = extract_category query)
  /\ split_on "," (join "," []) = [""].
Proof.
  assert (Hincl : incl (extract_category query) (map fst OUTLET_CATEGORIES))
    by (intros c; apply extract_category_labels).
  split; [exact Hincl | split; [| split; [| reflexivity]]].
  - change 12 with (List.length (map fst OUTLET_CATEGORIES)).
    apply NoDup_incl_length; [| exact Hincl].
    apply (scan_table_NoDup query OUTLET_CATEGORIES []). constructor.
  - intros Hne. apply split_on_join; [exact Hne |].
    apply extract_category_nocomma.
Qed.

Lemma extract_category_round_trip_witness :
  split_on "," (join "," (@extract_category Sample.fuzzy "wifi and 24 hours"))
  = ["24 Hours"; "WiFi"].
Proof.
  destruct (@extract_category_round_trip Sample.fuzzy "wifi and 24 hours")
    as [_ [_ [Hrt _]]].
  rewrite Hrt; vm_compute; [reflexivity | discriminate].
Defined.
